(** * Partition lifecycle of benchmark-postgres-partition (main.go)

    A shallow embedding of the [Logic] type of [main.go]: the naming of
    child tables, the statements sent to the database, the cache of known
    child tables and the four insertion strategies, together with the two
    point fetches.

    The definitions come first:
    - [time]: the parts of Go's [time] package that [main.go] calls
      ([Time.UTC], [Time.Year]/[Month]/[Day], [time.Date], [Time.Format]),
      with the arithmetic of the Go sources written out on [Z];
    - [Section Core]: the methods of [Logic], over an abstract database
      handle (the [*sqlx.DB] of the source);
    - [Section Handlers]: the two POST handlers, from the decoded body to
      what they write;
    - [mock]: a scripted database used to run the methods on concrete
      inputs.

    The properties follow: what each method does to the receiver, the
    insertion strategies and the cache, the calendar arithmetic behind the
    name of a child table, the name itself and the statement that creates
    the table, and runs on the scripted database; then the loop over the
    rows of a result and the check of a table, the histories of the cache,
    the handlers, the characters of the name and of the bound, and the
    dates that exist. *)

From Stdlib Require Import ZArith Lia Ascii String List.
From stdpp Require Import base gmap strings list.

Local Open Scope Z_scope.

(** ** Machine integers *)

(** Conversion to [uint64] and to [int64]: Go wraps around silently. *)
Definition to_uint64 (z : Z) : Z := z mod 2 ^ 64.
Definition to_int64 (z : Z) : Z := (z + 2 ^ 63) mod 2 ^ 64 - 2 ^ 63.

(** ** Go's [time] package *)

Module time.

Definition secondsPerMinute : Z := 60.
Definition secondsPerHour : Z := 60 * secondsPerMinute.
Definition secondsPerDay : Z := 24 * secondsPerHour.
Definition daysPer400Years : Z := 365 * 400 + 97.
Definition daysPer100Years : Z := 365 * 100 + 24.
Definition daysPer4Years : Z := 365 * 4 + 1.

(** [absoluteZeroYear] is 1 mod 400; [absoluteToInternal] is
    [(absoluteZeroYear - internalYear) * 365.2425 * secondsPerDay]. *)
Definition absoluteZeroYear : Z := -292277022399.
Definition internalYear : Z := 1.
Definition absoluteToInternal : Z :=
  (absoluteZeroYear - internalYear) * 3652425 * secondsPerDay / 10000.
Definition internalToAbsolute : Z := - absoluteToInternal.
Definition unixToInternal : Z :=
  (1969 * 365 + 1969 / 4 - 1969 / 100 + 1969 / 400) * secondsPerDay.
Definition internalToUnix : Z := - unixToInternal.

Definition March : Z := 3.
Definition February : Z := 2.

(** A location is UTC or a zone at a fixed offset (seconds east of UTC),
    which is what decoding a JSON timestamp or [time.Parse] produces. *)
Inductive Location : Type :=
  | UTC
  | FixedZone (name : string) (offset : Z).

(** A [Time] is an instant (seconds since the Unix epoch, an [int64], and
    nanoseconds within the second) read in a location. *)
Record Time : Type := mkTime {
  unixSec : Z;
  nsec : Z;
  loc : Location
}.

Definition zone_offset (l : Location) : Z :=
  match l with
  | UTC => 0
  | FixedZone _ off => off
  end.

(** [func (t Time) UTC() Time] *)
Definition Time_UTC (t : Time) : Time :=
  {| unixSec := unixSec t; nsec := nsec t; loc := UTC |}.

(** [func (t Time) abs() uint64]: seconds since the absolute zero year, in
    the location of [t]. *)
Definition Time_abs (t : Time) : Z :=
  let sec :=
    match loc t with
    | UTC => unixSec t
    | FixedZone _ off => to_int64 (unixSec t + off)
    end in
  to_uint64 (sec + (unixToInternal + internalToAbsolute)).

(** [func isLeap(year int) bool]; [%] on [int] truncates towards zero. *)
Definition isLeap (year : Z) : bool :=
  (Z.rem year 4 =? 0) && (negb (Z.rem year 100 =? 0) || (Z.rem year 400 =? 0)).

(** [var daysBefore = [...]int32{...}]: days before the start of each
    month in a non-leap year, with a final entry for the whole year. *)
Definition daysBefore : list Z :=
  [ 0;
    31;
    31 + 28;
    31 + 28 + 31;
    31 + 28 + 31 + 30;
    31 + 28 + 31 + 30 + 31;
    31 + 28 + 31 + 30 + 31 + 30;
    31 + 28 + 31 + 30 + 31 + 30 + 31;
    31 + 28 + 31 + 30 + 31 + 30 + 31 + 31;
    31 + 28 + 31 + 30 + 31 + 30 + 31 + 31 + 30;
    31 + 28 + 31 + 30 + 31 + 30 + 31 + 31 + 30 + 31;
    31 + 28 + 31 + 30 + 31 + 30 + 31 + 31 + 30 + 31 + 30;
    31 + 28 + 31 + 30 + 31 + 30 + 31 + 31 + 30 + 31 + 30 + 31 ].

Definition daysBefore_at (i : Z) : Z := nth (Z.to_nat i) daysBefore 0.

(** The year and the day within the year of an absolute time: the first
    half of [absDate]. *)
Definition absYearDay (abs : Z) : Z * Z :=
  (* Split into time and day. *)
  let d := abs / secondsPerDay in
  (* Account for 400 year cycles. *)
  let n := d / daysPer400Years in
  let y := 400 * n in
  let d := d - daysPer400Years * n in
  (* Cut off 100-year cycles. *)
  let n := d / daysPer100Years in
  let n := n - Z.shiftr n 2 in
  let y := y + 100 * n in
  let d := d - daysPer100Years * n in
  (* Cut off 4-year cycles. *)
  let n := d / daysPer4Years in
  let y := y + 4 * n in
  let d := d - daysPer4Years * n in
  (* Cut off years within a 4-year cycle. *)
  let n := d / 365 in
  let n := n - Z.shiftr n 2 in
  let y := y + n in
  let d := d - 365 * n in
  (to_int64 (to_int64 y + absoluteZeroYear), d).

(** The month and the day of the month of a day within a year: the second
    half of [absDate]. *)
Definition monthDay (year yday : Z) : Z * Z :=
  let day := yday in
  if isLeap year && (day =? 31 + 29 - 1) then (February, 29)
  else
    let day := if isLeap year && (day >? 31 + 29 - 1) then day - 1 else day in
    (* Estimate month on assumption that every month has 31 days. *)
    let month := Z.quot day 31 in
    let end_ := daysBefore_at (month + 1) in
    let '(month, begin) :=
      if day >=? end_ then (month + 1, end_)
      else (month, daysBefore_at month) in
    (month + 1, day - begin + 1).

(** [func absDate(abs uint64, full bool) (year int, month Month, day int, yday int)]
    with [full = true]. *)
Definition absDate (abs : Z) : Z * Z * Z * Z :=
  let '(year, yday) := absYearDay abs in
  let '(month, day) := monthDay year yday in
  (year, month, day, yday).

(** [func absClock(abs uint64) (hour, min, sec int)] *)
Definition absClock (abs : Z) : Z * Z * Z :=
  let sec := abs mod secondsPerDay in
  let hour := Z.quot sec secondsPerHour in
  let sec := sec - hour * secondsPerHour in
  let min := Z.quot sec secondsPerMinute in
  let sec := sec - min * secondsPerMinute in
  (hour, min, sec).

Definition Time_Year (t : Time) : Z := let '(y, _, _, _) := absDate (Time_abs t) in y.
Definition Time_Month (t : Time) : Z := let '(_, m, _, _) := absDate (Time_abs t) in m.
Definition Time_Day (t : Time) : Z := let '(_, _, d, _) := absDate (Time_abs t) in d.

(** [func norm(hi, lo, base int) (nhi, nlo int)] *)
Definition norm (hi lo base : Z) : Z * Z :=
  let '(hi, lo) :=
    if lo <? 0 then
      let n := Z.quot (- lo - 1) base + 1 in
      (hi - n, lo + n * base)
    else (hi, lo) in
  if lo >=? base then
    let n := Z.quot lo base in
    (hi + n, lo - n * base)
  else (hi, lo).

(** [func daysSinceEpoch(year int) uint64] *)
Definition daysSinceEpoch (year : Z) : Z :=
  let y := to_uint64 (to_int64 year - absoluteZeroYear) in
  (* Add in days from 400-year cycles. *)
  let n := y / 400 in
  let y := y - 400 * n in
  let d := daysPer400Years * n in
  (* Add in 100-year cycles. *)
  let n := y / 100 in
  let y := y - 100 * n in
  let d := d + daysPer100Years * n in
  (* Add in 4-year cycles. *)
  let n := y / 4 in
  let y := y - 4 * n in
  let d := d + daysPer4Years * n in
  (* Add in non-leap years. *)
  let n := y in
  d + 365 * n.

(** [func Date(year int, month Month, day, hour, min, sec, nsec int, loc *Location) Time].
    A fixed zone has one offset for all times, so looking the offset up
    never needs the adjustment near a zone transition. *)
Definition Date (year month day hour min sec nsec : Z) (l : Location) : Time :=
  (* Normalize month, overflowing into year. *)
  let m := month - 1 in
  let '(year, m) := norm year m 12 in
  let month := m + 1 in
  (* Normalize nsec, sec, min, hour, overflowing into day. *)
  let '(sec, nsec) := norm sec nsec 1000000000 in
  let '(min, sec) := norm min sec 60 in
  let '(hour, min) := norm hour min 60 in
  let '(day, hour) := norm day hour 24 in
  (* Compute days since the absolute epoch. *)
  let d := daysSinceEpoch year in
  (* Add in days before this month. *)
  let d := d + daysBefore_at (month - 1) in
  let d := if isLeap year && (month >=? March) then d + 1 else d in
  (* Add in days before today. *)
  let d := to_uint64 (d + to_uint64 (day - 1)) in
  (* Add in time elapsed today. *)
  let abs := to_uint64 (d * secondsPerDay) in
  let abs := to_uint64 (abs + to_uint64 (hour * secondsPerHour + min * secondsPerMinute + sec)) in
  let unix := to_int64 (to_int64 abs + (absoluteToInternal + internalToUnix)) in
  let unix := to_int64 (unix - zone_offset l) in
  {| unixSec := unix; nsec := nsec; loc := l |}.

(** *** Formatting *)

(** [byte('0' + u)] for a decimal digit [u]. *)
Definition digit (u : Z) : ascii := ascii_of_nat (48 + Z.to_nat u).

(** The decimal digits of [u], assembled in reverse order in front of
    [acc]; [fuel] is the size of the buffer ([var buf [20]byte]). *)
Fixpoint utoa (fuel : nat) (u : Z) (acc : string) : string :=
  match fuel with
  | O => acc
  | S fuel' =>
      if u >=? 10 then
        let q := u / 10 in
        utoa fuel' q (String (digit (u - q * 10)) acc)
      else String (digit u) acc
  end.

Fixpoint zeros (n : nat) : string :=
  match n with
  | O => EmptyString
  | S n' => String "0"%char (zeros n')
  end.

(** [func appendInt(b []byte, x int, width int) []byte]: the decimal form
    of [x], zero-padded to [width] digits, after a sign if [x] is negative. *)
Definition appendInt (b : string) (x width : Z) : string :=
  let '(b, u) :=
    if x <? 0 then (b +:+ "-", to_uint64 (- x)) else (b, to_uint64 x) in
  let ds := utoa 20 u EmptyString in
  b +:+ zeros (Z.to_nat (width - Z.of_nat (String.length ds))) +:+ ds.

(** Reading decimal digits back, most significant first: the inverse of
    [appendInt], used to show that formatting loses nothing. *)
Definition digitValue (c : ascii) : Z := Z.of_nat (nat_of_ascii c) - 48.

Fixpoint decode (s : string) (acc : Z) : Z :=
  match s with
  | EmptyString => acc
  | String c s' => decode s' (10 * acc + digitValue c)
  end.

Definition decodeInt (s : string) : Z :=
  match s with
  | String "-"%char s' => - decode s' 0
  | _ => decode s 0
  end.

(** The nine digits of [u mod 10^9], most significant first. *)
Fixpoint nanoDigits (k : nat) (u : Z) (acc : string) : string :=
  match k with
  | O => acc
  | S k' => nanoDigits k' (u / 10) (String (digit (u mod 10)) acc)
  end.

(** [for n > 0 && buf[n-1] == '0' { n-- }] *)
Fixpoint trimZeros (n : nat) (buf : string) : nat :=
  match n with
  | O => O
  | S n' =>
      match String.get n' buf with
      | Some "0"%char => trimZeros n' buf
      | _ => n
      end
  end.

(** [func formatNano(b []byte, nanosec uint, n int, trim bool) []byte] with
    [n = 9] and [trim = true]: the fraction of a second without its trailing
    zeros, and nothing at all when it is zero. *)
Definition formatNano (b : string) (nanosec : Z) : string :=
  let buf := nanoDigits 9 (to_uint64 nanosec) EmptyString in
  let n := trimZeros 9 buf in
  match n with
  | O => b
  | _ => b +:+ "." +:+ String.substring 0 n buf
  end.

(** Reading a fraction of a second back: the digits after the point,
    completed with zeros to nine digits. *)
Definition decodeNano (s : string) : Z :=
  match s with
  | EmptyString => 0
  | String _ ds => decode (ds +:+ zeros (9 - String.length ds)) 0
  end.

(** The pieces of a layout that [main.go] uses, as [nextStdChunk] cuts
    them: a layout is the list of its pieces. *)
Inductive chunk : Type :=
  | literal (s : string)
  | stdLongYear          (* "2006" *)
  | stdZeroMonth         (* "01" *)
  | stdZeroDay           (* "02" *)
  | stdHour              (* "15" *)
  | stdZeroMinute        (* "04" *)
  | stdZeroSecond        (* "05" *)
  | stdFracSecond9       (* ".999999999" *)
  | stdISO8601ColonTZ.   (* "Z07:00" *)

(** ["2006"], ["01"], ["02"] *)
Definition layout_2006 : list chunk := [stdLongYear].
Definition layout_01 : list chunk := [stdZeroMonth].
Definition layout_02 : list chunk := [stdZeroDay].

(** [RFC3339Nano = "2006-01-02T15:04:05.999999999Z07:00"] *)
Definition RFC3339Nano : list chunk :=
  [ stdLongYear; literal "-"; stdZeroMonth; literal "-"; stdZeroDay;
    literal "T"; stdHour; literal ":"; stdZeroMinute; literal ":";
    stdZeroSecond; stdFracSecond9; stdISO8601ColonTZ ].

(** One step of the loop of [func (t Time) AppendFormat(b []byte, layout string) []byte]. *)
Definition appendChunk (t : Time) (b : string) (c : chunk) : string :=
  let abs := Time_abs t in
  let offset := zone_offset (loc t) in
  let '(year, month, day, _) := absDate abs in
  let '(hour, min, sec) := absClock abs in
  match c with
  | literal s => b +:+ s
  | stdLongYear => appendInt b year 4
  | stdZeroMonth => appendInt b month 2
  | stdZeroDay => appendInt b day 2
  | stdHour => appendInt b hour 2
  | stdZeroMinute => appendInt b min 2
  | stdZeroSecond => appendInt b sec 2
  | stdFracSecond9 => formatNano b (nsec t)
  | stdISO8601ColonTZ =>
      if offset =? 0 then b +:+ "Z"
      else
        let zone := Z.quot offset 60 in
        let '(b, zone) :=
          if zone <? 0 then (b +:+ "-", - zone) else (b +:+ "+", zone) in
        let b := appendInt b (Z.quot zone 60) 2 in
        let b := b +:+ ":" in
        appendInt b (Z.rem zone 60) 2
  end.

(** [func (t Time) Format(layout string) string] *)
Definition Time_Format (t : Time) (layout : list chunk) : string :=
  fold_left (appendChunk t) layout EmptyString.

End time.

Import time.

(** ** Values of [main.go] *)

(** A Go [error]: what the database driver reports, or such an error
    made by [fmt.Errorf]: from a format and its arguments, or, when the
    format has a [%w], from the format, the error it wraps and the other
    arguments. A nil error is [None]. *)
Inductive error : Type :=
  | DriverError (msg : string)
  | Errorf (format : string) (args : list string)
  | ErrorfWrap (format : string) (wrapped : error) (args : list string).

(** [type Transaction struct] *)
Record Transaction : Type := mkTransaction {
  ID : string;
  UserID : string;
  Info : string;
  Status : string;
  TrxDate : Time;
  TrxTimestamp : Time
}.

(** The zero [time.Time] (January 1, year 1, 00:00:00 UTC) and
    [&Transaction{}]. *)
Definition Time_zero : Time :=
  {| unixSec := internalToUnix; nsec := 0; loc := UTC |}.

Definition Transaction_zero : Transaction :=
  {| ID := EmptyString; UserID := EmptyString; Info := EmptyString;
     Status := EmptyString;
     TrxDate := Time_zero; TrxTimestamp := Time_zero |}.

(** An argument bound to a placeholder of a query. *)
Inductive SqlArg : Type :=
  | ArgString (s : string)
  | ArgTime (t : Time).

(** A value held in the [sync.Map] ([interface{}]). *)
Inductive any : Type :=
  | any_nil
  | any_bool (b : bool)
  | any_string (s : string).

(** [*sql.Rows]: the rows that [Next] will still deliver, and what [Close]
    returns. *)
Record Rows (Row : Type) : Type := mkRows {
  rows_next : list Row;
  rows_Close : option error
}.
Arguments mkRows {Row} _ _.
Arguments rows_next {Row} _.
Arguments rows_Close {Row} _.

(** The database behind [*sqlx.DB], as far as [main.go] uses it:
    [Exec] and [Query] on a connection state, and [Scan] of a row into the
    six fields of a [Transaction] or into one string. A scan may fail
    after it has written some of its destinations, so it returns the
    destination as it leaves it. *)
Record Driver : Type := mkDriver {
  DB : Type;
  Row : Type;
  db_Exec : DB -> string -> DB * option error;
  db_Query : DB -> string -> list SqlArg -> DB * (Rows Row + error);
  scan_Transaction : Row -> Transaction -> Transaction * option error;
  scan_string : Row -> string -> string * option error
}.

(** A statement sent to the database, with the error it came back with. *)
Inductive Call : Type :=
  | CallExec (sql : string) (err : option error)
  | CallQuery (sql : string) (args : list SqlArg) (err : option error).

Definition is_Exec (c : Call) : bool :=
  match c with CallExec _ _ => true | CallQuery _ _ _ => false end.

(** The double quote character of the SQL texts. *)
Definition dq : string := String (ascii_of_nat 34) EmptyString.

(** [const sqlCreateTableTrxPartitioned] *)
Definition sqlCreateTableTrxPartitioned : string :=
  "CREATE TABLE IF NOT EXISTS " +:+ dq +:+ "transactions_partitioned" +:+ dq +:+ " (
		" +:+ dq +:+ "id" +:+ dq +:+ " VARCHAR NOT NULL,
		" +:+ dq +:+ "user_id" +:+ dq +:+ " VARCHAR NOT NULL,
		" +:+ dq +:+ "info" +:+ dq +:+ " VARCHAR NOT NULL,
		" +:+ dq +:+ "status" +:+ dq +:+ " VARCHAR NOT NULL,
		" +:+ dq +:+ "trx_date" +:+ dq +:+ " DATE NOT NULL,
		" +:+ dq +:+ "trx_timestamp" +:+ dq +:+ " TIMESTAMP WITH TIME ZONE NOT NULL,
		PRIMARY KEY (" +:+ dq +:+ "id" +:+ dq +:+ ", " +:+ dq +:+ "trx_date" +:+ dq +:+ ")
	) PARTITION BY LIST(trx_date);

	
	CREATE INDEX IF NOT EXISTS idx_transactions_partitioned_id_trx_date_timestamp ON transactions_partitioned (id, user_id, trx_date, trx_timestamp DESC);
	".

(** [const sqlCreateTableTrx] *)
Definition sqlCreateTableTrx : string :=
  "CREATE TABLE IF NOT EXISTS " +:+ dq +:+ "transactions" +:+ dq +:+ " (
		" +:+ dq +:+ "id" +:+ dq +:+ " VARCHAR NOT NULL,
		" +:+ dq +:+ "user_id" +:+ dq +:+ " VARCHAR NOT NULL,
		" +:+ dq +:+ "info" +:+ dq +:+ " VARCHAR NOT NULL,
		" +:+ dq +:+ "status" +:+ dq +:+ " VARCHAR NOT NULL,
		" +:+ dq +:+ "trx_date" +:+ dq +:+ " DATE NOT NULL,
		" +:+ dq +:+ "trx_timestamp" +:+ dq +:+ " TIMESTAMP WITH TIME ZONE NOT NULL,
		PRIMARY KEY (" +:+ dq +:+ "id" +:+ dq +:+ ", " +:+ dq +:+ "trx_date" +:+ dq +:+ ")
	);

	CREATE INDEX IF NOT EXISTS idx_transactions_id_trx_date_timestamp ON transactions (id, user_id, trx_date, trx_timestamp DESC);
	".

(** The statements of the inserts and of the fetches. *)
Definition sqlInsertTransaction : string :=
  "INSERT INTO transactions (id, user_id, info, status, trx_date, trx_timestamp) VALUES ($1, $2, $3, $4, $5, $6) RETURNING *;".
Definition sqlInsertTransactionPartitioned : string :=
  "INSERT INTO transactions_partitioned (id, user_id, info, status, trx_date, trx_timestamp) VALUES ($1, $2, $3, $4, $5, $6) RETURNING *;".
Definition sqlFetchTransaction : string :=
  "SELECT * FROM transactions WHERE id = $1 AND user_id = $2 AND trx_date = $3 ORDER BY trx_timestamp DESC LIMIT 1;".
Definition sqlFetchTransactionPartitioned : string :=
  "SELECT * FROM transactions_partitioned WHERE id = $1 AND user_id = $2 AND trx_date = $3 ORDER BY trx_timestamp DESC LIMIT 1;".

(** The arguments of an insert, in the order of its placeholders. *)
Definition insertArgs (trx : Transaction) : list SqlArg :=
  [ ArgString (ID trx); ArgString (UserID trx); ArgString (Info trx);
    ArgString (Status trx); ArgTime (TrxDate trx); ArgTime (TrxTimestamp trx) ].

(** ** Pure functions of [Logic] *)

(** [func (l *Logic) ChildTableName(currentTime time.Time) string] *)
Definition ChildTableName (currentTime : Time) : string :=
  let currentTime := Time_UTC currentTime in
  let currentDay :=
    Date (Time_Year currentTime) (Time_Month currentTime) (Time_Day currentTime)
         0 0 0 0 UTC in
  let year := Time_Format currentDay layout_2006 in
  let month := Time_Format currentDay layout_01 in
  let day := Time_Format currentDay layout_02 in
  "transaction_partition_y" +:+ year +:+ "_m" +:+ month +:+ "_d" +:+ day.

(** The statement that [CreateNewPartitionChildTable] builds with
    [fmt.Sprintf]. *)
Definition childTableSQL (currentTime : Time) : string :=
  let tableName := ChildTableName currentTime in
  "CREATE TABLE IF NOT EXISTS " +:+ tableName
    +:+ " PARTITION OF transactions_partitioned FOR VALUES IN ('"
    +:+ Time_Format (Time_UTC currentTime) RFC3339Nano +:+ "');".

(** [key := fmt.Sprintf("isExist:%s", tableName)] *)
Definition cacheKey (tableName : string) : string := "isExist:" +:+ tableName.

(** [if ok && exist != nil { if yes, successConversion := exist.(bool); successConversion && yes {]:
    the test on the result of [childTableMap.Load(key)]. *)
Definition knownExisting (loaded : option any) : bool :=
  match loaded with
  | Some (any_bool yes) => yes
  | _ => false
  end.

(** The UTC calendar day of a timestamp: the year, the month and the day
    that [t.UTC().Date()] reports. *)
Definition utcDate (t : Time) : Z * Z * Z :=
  (Time_Year (Time_UTC t), Time_Month (Time_UTC t), Time_Day (Time_UTC t)).

(** The number of whole days between the Unix epoch and a timestamp. *)
Definition unixDay (t : Time) : Z := unixSec t / secondsPerDay.

(** The time of day of a timestamp in UTC: hour, minute and second. *)
Definition utcClock (t : Time) : Z * Z * Z := absClock (Time_abs (Time_UTC t)).

(** The timestamps for which Go computes dates: those not before the
    absolute zero year (the year -292277022399) that fit an [int64]. *)
Definition afterAbsoluteZero (t : Time) : Prop :=
  - (unixToInternal + internalToAbsolute) ≤ unixSec t < 2 ^ 63.

(** ** The methods of [Logic] *)

Section Core.

Variable drv : Driver.

(** [type Logic struct { db *sqlx.DB; childTableMap sync.Map }]. The
    connection is held by its state; [calls] is not a field of the source:
    it logs the statements sent through [db], oldest first, so that what a
    method does to the database can be stated. *)
Record Logic : Type := mkLogic {
  db : DB drv;
  childTableMap : gmap string any;
  calls : list Call
}.

(** [func NewLogic(db *sqlx.DB) *Logic] *)
Definition NewLogic (d : DB drv) : Logic :=
  {| db := d; childTableMap := ∅; calls := [] |}.

(** A method of [*Logic] reads and updates the state of its receiver. *)
Definition M (A : Type) : Type := Logic -> A * Logic.

Definition ret {A : Type} (a : A) : M A := fun l => (a, l).

Definition bind {A B : Type} (m : M A) (k : A -> M B) : M B :=
  fun l => let '(a, l') := m l in k a l'.

Notation "'let*' x := m 'in' k" := (bind m (fun x => k))
  (at level 10, x name, m at level 100, k at level 200).

(** [l.db.Exec(sql)]; the [sql.Result] is never used. *)
Definition Exec (sql : string) : M (option error) :=
  fun l =>
    let '(d, err) := db_Exec drv (db l) sql in
    (err, {| db := d; childTableMap := childTableMap l;
             calls := calls l ++ [CallExec sql err] |}).

(** [l.db.Query(sql, args...)] *)
Definition Query (sql : string) (args : list SqlArg) : M (Rows (Row drv) + error) :=
  fun l =>
    let '(d, res) := db_Query drv (db l) sql args in
    let err := match res with inl _ => None | inr e => Some e end in
    (res, {| db := d; childTableMap := childTableMap l;
             calls := calls l ++ [CallQuery sql args err] |}).

(** [l.childTableMap.Load(key)]: [(value, true)] is [Some value] and
    [(nil, false)] is [None]. *)
Definition Load (key : string) : M (option any) :=
  fun l => (childTableMap l !! key, l).

(** [l.childTableMap.Store(key, value)] *)
Definition Store (key : string) (value : any) : M unit :=
  fun l =>
    (tt, {| db := db l; childTableMap := <[key := value]> (childTableMap l);
            calls := calls l |}).

(** [for res.Next() { err = res.Scan(dest...); if err != nil { return err } }]:
    the destination after the loop, and the error that ended it early. *)
Fixpoint scanRows {D : Type} (scan : Row drv -> D -> D * option error)
    (rows : list (Row drv)) (dest : D) : D * option error :=
  match rows with
  | [] => (dest, None)
  | r :: rows' =>
      let '(dest', err) := scan r dest in
      match err with
      | Some e => (dest', Some e)
      | None => scanRows scan rows' dest'
      end
  end.

(** [func (l *Logic) CreateLogTable() error] *)
Definition CreateLogTable : M (option error) :=
  let* err := Exec sqlCreateTableTrx in
  match err with
  | Some e =>
      ret (Some (ErrorfWrap "create transaction table without partition error: %w" e []))
  | None => ret None
  end.

(** An insert with its statement: the body shared by
    [InsertTransactionWithoutPartition] and [InsertTransactionPartitioned].
    The record behind the pointer [trx] is returned as the call leaves it. *)
Definition insertWith (sql : string) (trx : Transaction) : M (Transaction * option error) :=
  let* res := Query sql (insertArgs trx) in
  match res with
  | inr err => ret (trx, Some err)
  | inl res =>
      let '(trx', err) := scanRows (scan_Transaction drv) (rows_next res) trx in
      match err with
      | Some e => ret (trx', Some e)
      | None => ret (trx', rows_Close res)
      end
  end.

(** [func (l *Logic) InsertTransactionWithoutPartition(trx *Transaction) error] *)
Definition InsertTransactionWithoutPartition (trx : Transaction) : M (Transaction * option error) :=
  insertWith sqlInsertTransaction trx.

(** [func (l *Logic) CreatePartitionParentTable() error] *)
Definition CreatePartitionParentTable : M (option error) :=
  let* err := Exec sqlCreateTableTrxPartitioned in
  match err with
  | Some e =>
      ret (Some (ErrorfWrap "create transaction partitioned parent table error: %w" e []))
  | None => ret None
  end.

(** [func (l *Logic) CreateNewPartitionChildTable(currentTime time.Time) error] *)
Definition CreateNewPartitionChildTable (currentTime : Time) : M (option error) :=
  let sql := childTableSQL currentTime in
  let* err := Exec sql in
  match err with
  | Some e =>
      ret (Some (ErrorfWrap "create transaction partitioned child table error: %w: %q" e [sql]))
  | None => ret None
  end.

(** [func (l *Logic) CheckPartitionChildTable(tableName string) error];
    the deferred [Close] only logs. *)
Definition CheckPartitionChildTable (tableName : string) : M (option error) :=
  let sql := "SELECT to_regclass('" +:+ tableName +:+ "');" in
  let* res := Query sql [] in
  match res with
  | inr err => ret (Some (ErrorfWrap "check table partition error: %w" err []))
  | inl res =>
      let '(resultTableName, err) :=
        scanRows (scan_string drv) (rows_next res) EmptyString in
      match err with
      | Some e => ret (Some e)
      | None =>
          if bool_decide (resultTableName ≠ tableName) then
            ret (Some (Errorf "not found table %s, returning %s from query"
                         [tableName; resultTableName]))
          else ret None
      end
  end.

(** [func (l *Logic) InsertTransactionPartitioned(trx *Transaction) error] *)
Definition InsertTransactionPartitioned (trx : Transaction) : M (Transaction * option error) :=
  insertWith sqlInsertTransactionPartitioned trx.

(** [func (l *Logic) InsertTransactionPartitionedDynamic(trx *Transaction) error] *)
Definition InsertTransactionPartitionedDynamic (trx : Transaction) : M (Transaction * option error) :=
  let* err := CreateNewPartitionChildTable (TrxDate trx) in
  match err with
  | Some e => ret (trx, Some e)
  | None => InsertTransactionPartitioned trx
  end.

(** [func (l *Logic) InsertTransactionPartitionedDynamicCached(trx *Transaction) error] *)
Definition InsertTransactionPartitionedDynamicCached (trx : Transaction) : M (Transaction * option error) :=
  let tableName := ChildTableName (TrxDate trx) in
  let key := cacheKey tableName in
  (* if exist table, then insert data to partition *)
  let* loaded := Load key in
  if knownExisting loaded then InsertTransactionPartitioned trx
  else
    (* if in cache is not exist, try to create then mark it as success *)
    let* err := CreateNewPartitionChildTable (TrxDate trx) in
    match err with
    | Some e => ret (trx, Some e)
    | None =>
        let* stored := Store key (any_bool true) in
        InsertTransactionPartitioned trx
    end.

(** A fetch with its statement: the body shared by
    [FetchOneTransactionWithoutPartition] and
    [FetchOneTransactionPartitioned]. The deferred [Close] only logs. *)
Definition fetchWith (sql : string) (id userID : string) (date : Time) : M (Transaction * option error) :=
  let trx := Transaction_zero in
  let* res := Query sql [ArgString id; ArgString userID; ArgTime date] in
  match res with
  | inr err => ret (trx, Some err)
  | inl res =>
      let '(trx', err) := scanRows (scan_Transaction drv) (rows_next res) trx in
      match err with
      | Some e => ret (trx', Some e)
      | None => ret (trx', None)
      end
  end.

(** [func (l *Logic) FetchOneTransactionWithoutPartition(id, userID string, date time.Time)],
    which returns a [*Transaction] and an [error]. *)
Definition FetchOneTransactionWithoutPartition (id userID : string) (date : Time) : M (Transaction * option error) :=
  fetchWith sqlFetchTransaction id userID date.

(** [func (l *Logic) FetchOneTransactionPartitioned(id, userID string, date time.Time)],
    which returns a [*Transaction] and an [error]. *)
Definition FetchOneTransactionPartitioned (id userID : string) (date : Time) : M (Transaction * option error) :=
  fetchWith sqlFetchTransactionPartitioned id userID date.

(** *** Histories *)

(** A call of one method of [Logic]. *)
Inductive Op : Type :=
  | OpCreateLogTable
  | OpInsertTransactionWithoutPartition (trx : Transaction)
  | OpCreatePartitionParentTable
  | OpCreateNewPartitionChildTable (currentTime : Time)
  | OpCheckPartitionChildTable (tableName : string)
  | OpInsertTransactionPartitioned (trx : Transaction)
  | OpInsertTransactionPartitionedDynamic (trx : Transaction)
  | OpInsertTransactionPartitionedDynamicCached (trx : Transaction)
  | OpFetchOneTransactionWithoutPartition (id userID : string) (date : Time)
  | OpFetchOneTransactionPartitioned (id userID : string) (date : Time).

(** The state of the receiver after a call. *)
Definition run_op (o : Op) (l : Logic) : Logic :=
  match o with
  | OpCreateLogTable => snd (CreateLogTable l)
  | OpInsertTransactionWithoutPartition trx => snd (InsertTransactionWithoutPartition trx l)
  | OpCreatePartitionParentTable => snd (CreatePartitionParentTable l)
  | OpCreateNewPartitionChildTable t => snd (CreateNewPartitionChildTable t l)
  | OpCheckPartitionChildTable n => snd (CheckPartitionChildTable n l)
  | OpInsertTransactionPartitioned trx => snd (InsertTransactionPartitioned trx l)
  | OpInsertTransactionPartitionedDynamic trx => snd (InsertTransactionPartitionedDynamic trx l)
  | OpInsertTransactionPartitionedDynamicCached trx => snd (InsertTransactionPartitionedDynamicCached trx l)
  | OpFetchOneTransactionWithoutPartition i u d => snd (FetchOneTransactionWithoutPartition i u d l)
  | OpFetchOneTransactionPartitioned i u d => snd (FetchOneTransactionPartitioned i u d l)
  end.

(** The state after a sequence of calls, first call first. *)
Definition run_ops (ops : list Op) (l : Logic) : Logic :=
  fold_left (fun l o => run_op o l) ops l.

(** The invariant of the cache: every entry holds [true], and is the key
    of a child table whose creation statement came back without error. *)
Definition cache_ok (l : Logic) : Prop :=
  ∀ key v, childTableMap l !! key = Some v →
    v = any_bool true ∧
    ∃ t, key = cacheKey (ChildTableName t) ∧
         CallExec (childTableSQL t) None ∈ calls l.

(** What one call can do to the cache and to the log: the log grows at
    its end, and the cache either stays as it is or gains [true] at the key
    of a child table whose creation has just succeeded. *)
Definition step_ok (l l' : Logic) : Prop :=
  (∃ cs, calls l' = calls l ++ cs) ∧
  (childTableMap l' = childTableMap l ∨
   ∃ t, childTableMap l' = <[cacheKey (ChildTableName t) := any_bool true]> (childTableMap l)
        ∧ CallExec (childTableSQL t) None ∈ calls l').

End Core.

Arguments mkLogic {drv} _ _ _.
Arguments db {drv} _.
Arguments childTableMap {drv} _.
Arguments calls {drv} _.
Arguments NewLogic {drv} _.
Arguments cache_ok {drv} _.
Arguments run_op {drv} _ _.
Arguments run_ops {drv} _ _.
Arguments step_ok {drv} _ _.

(** ** The handlers *)

(** [fmt.Sprint(i)] and the verb [%d] on an [int]: the sign and the
    decimal digits, without padding. *)
Definition itoa (i : Z) : string := appendInt EmptyString i 0.

(** [func NewLog(i int, date time.Time) *Transaction]; [uuid] is the
    string of the identifier that [uuid.NewV4()] draws in this call. *)
Definition NewLog (uuid : string) (i : Z) (date : Time) : Transaction :=
  {| ID := uuid;
     UserID := itoa i;
     Info := "{" +:+ dq +:+ "iteration" +:+ dq +:+ ": " +:+ itoa i +:+ "}";
     Status := "SUCCESS";
     TrxDate := date;
     TrxTimestamp := date |}.

(** [type Req struct { N int; UserID string; Date time.Time }], the body of
    the two POST requests. *)
Record Req : Type := mkReq {
  N : Z;
  ReqUserID : string;
  ReqDate : Time
}.

(** What a handler writes to the response: the text of an error, or the
    JSON of the records. *)
Inductive Response : Type :=
  | WriteError (err : error)
  | WriteJSON (trxs : list Transaction).

Section Handlers.

Variable drv : Driver.

Local Notation "'let*' x := m 'in' k" := (bind drv m (fun x => k))
  (at level 10, x name, m at level 100, k at level 200).

(** [for i := 0; i < reqBody.N; i++ { ... }]: the loop of the two POST
    handlers, with the insert that the handler calls. [n] counts the
    iterations still to run, [i] is the loop variable and [trxs] the slice
    built so far; [uuid i] is the identifier drawn in iteration [i]. The
    loop ends early with the first error of an insert. *)
Fixpoint insertLoop (insert : Transaction -> M drv (Transaction * option error))
    (uuid : Z -> string) (reqBody : Req) (n : nat) (i : Z)
    (trxs : list Transaction) : M drv Response :=
  match n with
  | O => ret drv (WriteJSON trxs)
  | S n' =>
      let trx := NewLog (uuid i) i (ReqDate reqBody) in
      let trx := {| ID := ID trx; UserID := ReqUserID reqBody; Info := Info trx;
                    Status := Status trx; TrxDate := TrxDate trx;
                    TrxTimestamp := TrxTimestamp trx |} in
      let* r := insert trx in
      match snd r with
      | Some err => ret drv (WriteError err)
      | None => insertLoop insert uuid reqBody n' (i + 1) (trxs ++ [fst r])
      end
  end.


(** [func (h *Handler) PostTransactionNoPartition(w http.ResponseWriter, r *http.Request)] *)
Definition PostTransactionNoPartition (uuid : Z -> string) (decoded : error + Req)
    : M drv Response :=
  match decoded with
  | inl err => ret drv (WriteError err)
  | inr reqBody =>
      insertLoop (InsertTransactionWithoutPartition drv) uuid reqBody
        (Z.to_nat (N reqBody)) 0 []
  end.

End Handlers.

(** ** Notions used to state further properties *)

(** The methods that the routes of [main] reach once the server runs: the
    cached insert, the insert without partition and the two fetches. *)
Definition servedOp (o : Op) : bool :=
  match o with
  | OpInsertTransactionPartitionedDynamicCached _
  | OpInsertTransactionWithoutPartition _
  | OpFetchOneTransactionWithoutPartition _ _ _
  | OpFetchOneTransactionPartitioned _ _ _ => true
  | _ => false
  end.

(** The calls of the cached insert. *)
Definition cachedOp (o : Op) : bool :=
  match o with
  | OpInsertTransactionPartitionedDynamicCached _ => true
  | _ => false
  end.

(** An [Exec] that came back without error. *)
Definition succeededExec (c : Call) : bool :=
  match c with
  | CallExec _ None => true
  | _ => false
  end.

(** All the characters of a string pass a test. *)
Fixpoint string_forallb (p : ascii -> bool) (s : string) : bool :=
  match s with
  | EmptyString => true
  | String c s' => p c && string_forallb p s'
  end.

Definition isDigit (c : ascii) : bool :=
  (48 <=? nat_of_ascii c)%nat && (nat_of_ascii c <=? 57)%nat.

(** A character of an unquoted SQL identifier in lower case: a letter, a
    digit or an underscore. *)
Definition identChar (c : ascii) : bool :=
  isDigit c
  || ((97 <=? nat_of_ascii c)%nat && (nat_of_ascii c <=? 122)%nat)
  || Ascii.eqb c "_".

(** A character of a timestamp in the RFC 3339 form in UTC. *)
Definition timestampChar (c : ascii) : bool :=
  isDigit c || Ascii.eqb c "-" || Ascii.eqb c ":" || Ascii.eqb c "T"
  || Ascii.eqb c "." || Ascii.eqb c "Z".

(** [func daysIn(m Month, year int) int] of Go's [time]: the length of a
    month. *)
Definition daysIn (m year : Z) : Z :=
  if (m =? February) && isLeap year then 29
  else daysBefore_at m - daysBefore_at (m - 1).

(** A date and a time of day that exist: what [time.Date] takes without
    normalizing anything. *)
Definition validDate (year month day : Z) : Prop :=
  1 ≤ month ≤ 12 ∧ 1 ≤ day ≤ daysIn month year.

Definition validClock (hour min sec ns : Z) : Prop :=
  0 ≤ hour < 24 ∧ 0 ≤ min < 60 ∧ 0 ≤ sec < 60 ∧ 0 ≤ ns < 1000000000.

(** ** A scripted database *)

Module mock.

(** A row of a result: the six columns of a transaction, or one name. *)
Inductive row : Type :=
  | RowTransaction (t : Transaction)
  | RowName (s : string).

(** What the database will answer to the next statement. *)
Inductive Reply : Type :=
  | ReplyExec (err : option error)
  | ReplyRows (rows : list row) (close : option error)
  | ReplyQueryError (e : error).

(** The state of the connection is the script of the replies still to
    come. Once the script is used up every [Exec] succeeds and every
    [Query] returns no rows. *)
Definition exec (script : list Reply) (sql : string) : list Reply * option error :=
  match script with
  | [] => ([], None)
  | ReplyExec err :: rest => (rest, err)
  | _ :: rest => (rest, Some (DriverError "pq: unexpected reply"))
  end.

Definition query (script : list Reply) (sql : string) (args : list SqlArg)
    : list Reply * (Rows row + error) :=
  match script with
  | [] => ([], inl (mkRows [] None))
  | ReplyRows rows close :: rest => (rest, inl (mkRows rows close))
  | ReplyQueryError e :: rest => (rest, inr e)
  | _ :: rest => (rest, inr (DriverError "pq: unexpected reply"))
  end.

Definition scanTransaction (r : row) (dest : Transaction) : Transaction * option error :=
  match r with
  | RowTransaction t => (t, None)
  | RowName _ =>
      (dest, Some (DriverError "sql: expected 1 destination arguments in Scan, not 6"))
  end.

Definition scanString (r : row) (dest : string) : string * option error :=
  match r with
  | RowName s => (s, None)
  | RowTransaction _ =>
      (dest, Some (DriverError "sql: expected 6 destination arguments in Scan, not 1"))
  end.

Definition driver : Driver :=
  {| DB := list Reply; Row := row;
     db_Exec := exec; db_Query := query;
     scan_Transaction := scanTransaction; scan_string := scanString |}.

(** 2021-06-30T00:00:00Z, 2021-06-30T23:59:59Z and 2021-07-01T00:00:00Z. *)
Definition t_2021_06_30 : Time := Date 2021 6 30 0 0 0 0 UTC.
Definition t_2021_06_30_end : Time := Date 2021 6 30 23 59 59 0 UTC.
Definition t_2021_07_01 : Time := Date 2021 7 1 0 0 0 0 UTC.

(** 2021-07-01T06:59:59+07:00, the same instant as 2021-06-30T23:59:59Z. *)
Definition t_2021_07_01_plus7 : Time :=
  Date 2021 7 1 6 59 59 0 (FixedZone "WIB" (7 * 3600)).

(** The record of the scenarios of the specification. *)
Definition trxA : Transaction :=
  {| ID := "A"; UserID := "1"; Info := "{}"; Status := "SUCCESS";
     TrxDate := t_2021_06_30; TrxTimestamp := t_2021_06_30 |}.

(** The same record at the end of the same day. *)
Definition trxB : Transaction :=
  {| ID := "B"; UserID := "1"; Info := "{}"; Status := "SUCCESS";
     TrxDate := t_2021_06_30_end; TrxTimestamp := t_2021_06_30_end |}.

End mock.

(** * Properties *)

(** Linear arithmetic with division and remainder by constants. *)
Ltac euclid := Z.to_euclidean_division_equations; lia.

(** ** What each method does to the receiver *)

Section CoreFacts.

Variable drv : Driver.
Implicit Types (l : Logic drv) (trx : Transaction) (t : Time).

Lemma Exec_run sql l :
  Exec drv sql l =
    (snd (db_Exec drv (db l) sql),
     mkLogic (fst (db_Exec drv (db l) sql)) (childTableMap l)
             (calls l ++ [CallExec sql (snd (db_Exec drv (db l) sql))])).
Proof. unfold Exec. destruct (db_Exec drv (db l) sql); reflexivity. Qed.

Lemma Exec_childTableMap sql l :
  childTableMap (snd (Exec drv sql l)) = childTableMap l.
Proof. rewrite Exec_run. reflexivity. Qed.

Lemma Exec_calls sql l :
  calls (snd (Exec drv sql l)) = calls l ++ [CallExec sql (fst (Exec drv sql l))].
Proof. rewrite Exec_run. reflexivity. Qed.

Lemma Query_childTableMap sql args l :
  childTableMap (snd (Query drv sql args l)) = childTableMap l.
Proof. unfold Query. destruct (db_Query drv (db l) sql args); reflexivity. Qed.

Lemma Query_calls sql args l :
  ∃ err, calls (snd (Query drv sql args l)) = calls l ++ [CallQuery sql args err].
Proof. unfold Query. destruct (db_Query drv (db l) sql args); eexists; reflexivity. Qed.

(** A schema statement wrapped by [fmt.Errorf]: the shape shared by the
    three table creations. *)
Lemma CreateNewPartitionChildTable_run t l :
  CreateNewPartitionChildTable drv t l =
    (match fst (Exec drv (childTableSQL t) l) with
     | Some e =>
         Some (ErrorfWrap "create transaction partitioned child table error: %w: %q"
                 e [childTableSQL t])
     | None => None
     end,
     snd (Exec drv (childTableSQL t) l)).
Proof.
  unfold CreateNewPartitionChildTable, bind, ret.
  destruct (Exec drv (childTableSQL t) l) as [[e|] l']; reflexivity.
Qed.

Lemma CreateNewPartitionChildTable_childTableMap t l :
  childTableMap (snd (CreateNewPartitionChildTable drv t l)) = childTableMap l.
Proof. rewrite CreateNewPartitionChildTable_run. apply Exec_childTableMap. Qed.

(** The creation sends one statement, and fails exactly when it does. *)
Lemma CreateNewPartitionChildTable_calls t l :
  ∃ err,
    calls (snd (CreateNewPartitionChildTable drv t l))
      = calls l ++ [CallExec (childTableSQL t) err]
    ∧ (err = None ↔ fst (CreateNewPartitionChildTable drv t l) = None).
Proof.
  rewrite CreateNewPartitionChildTable_run. simpl.
  exists (fst (Exec drv (childTableSQL t) l)). split.
  - apply Exec_calls.
  - destruct (fst (Exec drv (childTableSQL t) l)); split; congruence.
Qed.

Lemma insertWith_childTableMap sql trx l :
  childTableMap (snd (insertWith drv sql trx l)) = childTableMap l.
Proof.
  unfold insertWith, bind, ret.
  pose proof (Query_childTableMap sql (insertArgs trx) l) as H.
  destruct (Query drv sql (insertArgs trx) l) as [[res|e] l']; simpl in *; [|done].
  destruct (scanRows drv _ _ _) as [trx' [e|]]; done.
Qed.

(** An insert sends one statement, a query. *)
Lemma insertWith_calls sql trx l :
  ∃ err, calls (snd (insertWith drv sql trx l))
           = calls l ++ [CallQuery sql (insertArgs trx) err].
Proof.
  unfold insertWith, bind, ret.
  destruct (Query_calls sql (insertArgs trx) l) as [err H]. exists err.
  destruct (Query drv sql (insertArgs trx) l) as [[res|e] l']; simpl in *; [|done].
  destruct (scanRows drv _ _ _) as [trx' [e|]]; done.
Qed.

Lemma fetchWith_childTableMap sql id userID t l :
  childTableMap (snd (fetchWith drv sql id userID t l)) = childTableMap l.
Proof.
  unfold fetchWith, bind, ret.
  pose proof (Query_childTableMap sql [ArgString id; ArgString userID; ArgTime t] l) as H.
  destruct (Query drv sql _ l) as [[res|e] l']; simpl in *; [|done].
  destruct (scanRows drv _ _ _) as [trx' [e|]]; done.
Qed.

Lemma fetchWith_calls sql id userID t l :
  ∃ err, calls (snd (fetchWith drv sql id userID t l))
           = calls l ++ [CallQuery sql [ArgString id; ArgString userID; ArgTime t] err].
Proof.
  unfold fetchWith, bind, ret.
  destruct (Query_calls sql [ArgString id; ArgString userID; ArgTime t] l) as [err H].
  exists err.
  destruct (Query drv sql _ l) as [[res|e] l']; simpl in *; [|done].
  destruct (scanRows drv _ _ _) as [trx' [e|]]; done.
Qed.

Lemma CreateLogTable_run l :
  snd (CreateLogTable drv l) = snd (Exec drv sqlCreateTableTrx l).
Proof.
  unfold CreateLogTable, bind, ret.
  destruct (Exec drv sqlCreateTableTrx l) as [[e|] l']; reflexivity.
Qed.

Lemma CreatePartitionParentTable_run l :
  snd (CreatePartitionParentTable drv l) = snd (Exec drv sqlCreateTableTrxPartitioned l).
Proof.
  unfold CreatePartitionParentTable, bind, ret.
  destruct (Exec drv sqlCreateTableTrxPartitioned l) as [[e|] l']; reflexivity.
Qed.

Lemma CheckPartitionChildTable_childTableMap name l :
  childTableMap (snd (CheckPartitionChildTable drv name l)) = childTableMap l.
Proof.
  unfold CheckPartitionChildTable, bind, ret.
  pose proof (Query_childTableMap ("SELECT to_regclass('" +:+ name +:+ "');") [] l) as H.
  destruct (Query drv _ [] l) as [[res|e] l']; simpl in *; [|done].
  destruct (scanRows drv _ _ _) as [n [e|]]; [done|].
  case_bool_decide; done.
Qed.

Lemma CheckPartitionChildTable_calls name l :
  ∃ c, calls (snd (CheckPartitionChildTable drv name l)) = calls l ++ [c].
Proof.
  unfold CheckPartitionChildTable, bind, ret.
  destruct (Query_calls ("SELECT to_regclass('" +:+ name +:+ "');") [] l) as [err H].
  eexists.
  destruct (Query drv _ [] l) as [[res|e] l']; simpl in *; [|done].
  destruct (scanRows drv _ _ _) as [n [e|]]; [done|].
  case_bool_decide; done.
Qed.

(** The two paths of the cached insert. *)
Lemma Cached_hit trx l :
  knownExisting (childTableMap l !! cacheKey (ChildTableName (TrxDate trx))) = true →
  InsertTransactionPartitionedDynamicCached drv trx l
    = InsertTransactionPartitioned drv trx l.
Proof.
  intros Hhit. unfold InsertTransactionPartitionedDynamicCached, bind, Load.
  rewrite Hhit. reflexivity.
Qed.

Lemma Cached_miss trx l :
  knownExisting (childTableMap l !! cacheKey (ChildTableName (TrxDate trx))) = false →
  InsertTransactionPartitionedDynamicCached drv trx l
    = match CreateNewPartitionChildTable drv (TrxDate trx) l with
      | (Some e, l1) => ((trx, Some e), l1)
      | (None, l1) =>
          InsertTransactionPartitioned drv trx
            (mkLogic (db l1)
               (<[cacheKey (ChildTableName (TrxDate trx)) := any_bool true]> (childTableMap l1))
               (calls l1))
      end.
Proof.
  intros Hmiss. unfold InsertTransactionPartitionedDynamicCached, bind, Load.
  rewrite Hmiss.
  destruct (CreateNewPartitionChildTable drv (TrxDate trx) l) as [[e|] l1]; reflexivity.
Qed.

Lemma knownExisting_true (o : option any) :
  knownExisting o = true ↔ o = Some (any_bool true).
Proof.
  destruct o as [[| [|] |]|]; simpl; split; congruence.
Qed.

End CoreFacts.

(** The name of the child table is a function of the UTC calendar day. *)
Lemma ChildTableName_utcDate (t1 t2 : Time) :
  utcDate t1 = utcDate t2 → ChildTableName t1 = ChildTableName t2.
Proof.
  unfold utcDate, ChildTableName. intros H. injection H as Hy Hm Hd.
  rewrite Hy, Hm, Hd. reflexivity.
Qed.

(** ** The insertion strategies and the cache *)

Section CoreProps.

Variable drv : Driver.
Implicit Types (l : Logic drv) (trx : Transaction) (t : Time).

Lemma step_ok_same l l' c :
  childTableMap l' = childTableMap l → calls l' = calls l ++ [c] → step_ok l l'.
Proof. intros Hm Hc. split; [eauto | by left]. Qed.

Lemma step_ok_trans l1 l2 l3 :
  childTableMap l2 = childTableMap l1 → (∃ cs, calls l2 = calls l1 ++ cs) →
  step_ok l2 l3 → step_ok l1 l3.
Proof.
  intros Hm [cs Hc] [[cs' Hc'] Hcache]. split.
  - exists (cs ++ cs'). rewrite Hc', Hc, <- app_assoc. reflexivity.
  - rewrite <- Hm. exact Hcache.
Qed.

Lemma Dynamic_step trx l :
  step_ok l (snd (InsertTransactionPartitionedDynamic drv trx l)).
Proof.
  unfold InsertTransactionPartitionedDynamic, bind, ret.
  pose proof (CreateNewPartitionChildTable_childTableMap drv (TrxDate trx) l) as Hm.
  destruct (CreateNewPartitionChildTable_calls drv (TrxDate trx) l) as [err [Hc _]].
  destruct (CreateNewPartitionChildTable drv (TrxDate trx) l) as [[e|] l1]; simpl in *.
  - eapply step_ok_same; eauto.
  - eapply step_ok_trans; [exact Hm | eauto |].
    destruct (insertWith_calls drv sqlInsertTransactionPartitioned trx l1) as [qe Hq].
    eapply step_ok_same; [apply insertWith_childTableMap | exact Hq].
Qed.

Lemma Cached_step trx l :
  step_ok l (snd (InsertTransactionPartitionedDynamicCached drv trx l)).
Proof.
  destruct (knownExisting (childTableMap l !! cacheKey (ChildTableName (TrxDate trx))))
    eqn:Hk.
  - rewrite Cached_hit by exact Hk.
    destruct (insertWith_calls drv sqlInsertTransactionPartitioned trx l) as [qe Hq].
    eapply step_ok_same; [apply insertWith_childTableMap | exact Hq].
  - rewrite Cached_miss by exact Hk.
    pose proof (CreateNewPartitionChildTable_childTableMap drv (TrxDate trx) l) as Hm.
    destruct (CreateNewPartitionChildTable_calls drv (TrxDate trx) l) as [err [Hc Herr]].
    destruct (CreateNewPartitionChildTable drv (TrxDate trx) l) as [[e|] l1]; simpl in *.
    + eapply step_ok_same; eauto.
    + rewrite (proj2 Herr eq_refl) in Hc.
      set (l2 := mkLogic (db l1) _ (calls l1)).
      destruct (insertWith_calls drv sqlInsertTransactionPartitioned trx l2) as [qe Hq].
      pose proof (insertWith_childTableMap drv sqlInsertTransactionPartitioned trx l2) as Hm2.
      unfold InsertTransactionPartitioned. split.
      * eexists. rewrite Hq. simpl. rewrite Hc, <- app_assoc. reflexivity.
      * right. exists (TrxDate trx). split.
        -- rewrite Hm2. simpl. rewrite Hm. reflexivity.
        -- rewrite Hq. simpl. rewrite Hc, !elem_of_app, !list_elem_of_singleton. auto.
Qed.

Lemma run_op_step (o : Op) l : step_ok l (run_op o l).
Proof.
  destruct o; simpl.
  - rewrite CreateLogTable_run.
    eapply step_ok_same; [apply Exec_childTableMap | apply Exec_calls].
  - destruct (insertWith_calls drv sqlInsertTransaction trx l) as [qe Hq].
    eapply step_ok_same; [apply insertWith_childTableMap | exact Hq].
  - rewrite CreatePartitionParentTable_run.
    eapply step_ok_same; [apply Exec_childTableMap | apply Exec_calls].
  - destruct (CreateNewPartitionChildTable_calls drv currentTime l) as [err [Hc _]].
    eapply step_ok_same; [apply CreateNewPartitionChildTable_childTableMap | exact Hc].
  - destruct (CheckPartitionChildTable_calls drv tableName l) as [c Hc].
    eapply step_ok_same; [apply CheckPartitionChildTable_childTableMap | exact Hc].
  - destruct (insertWith_calls drv sqlInsertTransactionPartitioned trx l) as [qe Hq].
    eapply step_ok_same; [apply insertWith_childTableMap | exact Hq].
  - apply Dynamic_step.
  - apply Cached_step.
  - destruct (fetchWith_calls drv sqlFetchTransaction id userID date l) as [qe Hq].
    eapply step_ok_same; [apply fetchWith_childTableMap | exact Hq].
  - destruct (fetchWith_calls drv sqlFetchTransactionPartitioned id userID date l) as [qe Hq].
    eapply step_ok_same; [apply fetchWith_childTableMap | exact Hq].
Qed.

Lemma step_ok_cache_ok l l' : step_ok l l' → cache_ok l → cache_ok l'.
Proof.
  intros [[cs Hc] Hcache] Hok key v Hlook.
  destruct Hcache as [Hsame | [t [Hins Hcall]]].
  - rewrite Hsame in Hlook. destruct (Hok key v Hlook) as [Hv [t [Hkey Hin]]].
    split; [exact Hv|]. exists t. split; [exact Hkey|].
    rewrite Hc, elem_of_app. auto.
  - rewrite Hins in Hlook.
    destruct (decide (cacheKey (ChildTableName t) = key)) as [<-|Hne].
    + rewrite lookup_insert_eq in Hlook. injection Hlook as <-.
      split; [reflexivity|]. exists t. split; [reflexivity | exact Hcall].
    + rewrite lookup_insert_ne in Hlook by exact Hne.
      destruct (Hok key v Hlook) as [Hv [t' [Hkey Hin]]].
      split; [exact Hv|]. exists t'. split; [exact Hkey|].
      rewrite Hc, elem_of_app. auto.
Qed.

Lemma step_ok_keeps_true l l' key :
  step_ok l l' → childTableMap l !! key = Some (any_bool true) →
  childTableMap l' !! key = Some (any_bool true).
Proof.
  intros [_ [Hsame | [t [Hins _]]]] Hlook.
  - rewrite Hsame. exact Hlook.
  - rewrite Hins. destruct (decide (cacheKey (ChildTableName t) = key)) as [<-|Hne].
    + apply lookup_insert_eq.
    + rewrite lookup_insert_ne by exact Hne. exact Hlook.
Qed.

Lemma step_ok_keeps_present l l' key :
  step_ok l l' → is_Some (childTableMap l !! key) →
  is_Some (childTableMap l' !! key).
Proof.
  intros [_ [Hsame | [t [Hins _]]]] Hlook.
  - rewrite Hsame. exact Hlook.
  - rewrite Hins. destruct (decide (cacheKey (ChildTableName t) = key)) as [<-|Hne].
    + rewrite lookup_insert_eq. eauto.
    + rewrite lookup_insert_ne by exact Hne. exact Hlook.
Qed.

Lemma step_ok_writes_true l l' key v :
  step_ok l l' → childTableMap l' !! key = Some v →
  v = any_bool true ∨ childTableMap l !! key = Some v.
Proof.
  intros [_ [Hsame | [t [Hins _]]]] Hlook.
  - right. rewrite <- Hsame. exact Hlook.
  - rewrite Hins in Hlook.
    destruct (decide (cacheKey (ChildTableName t) = key)) as [<-|Hne].
    + rewrite lookup_insert_eq in Hlook. left. congruence.
    + rewrite lookup_insert_ne in Hlook by exact Hne. right. exact Hlook.
Qed.

Lemma run_ops_snoc (ops : list Op) (o : Op) l :
  run_ops (ops ++ [o]) l = run_op o (run_ops ops l).
Proof. unfold run_ops. rewrite fold_left_app. reflexivity. Qed.

Lemma run_ops_keeps_true (ops : list Op) l key :
  childTableMap l !! key = Some (any_bool true) →
  childTableMap (run_ops ops l) !! key = Some (any_bool true).
Proof.
  revert l. induction ops as [|o ops IH]; intros l Hlook; [exact Hlook|].
  simpl. apply IH. eapply step_ok_keeps_true; [apply run_op_step | exact Hlook].
Qed.

Lemma run_ops_cache_ok (ops : list Op) l :
  cache_ok l → cache_ok (run_ops ops l).
Proof.
  revert l. induction ops as [|o ops IH]; intros l Hok; [exact Hok|].
  simpl. apply IH. eapply step_ok_cache_ok; [apply run_op_step | exact Hok].
Qed.

Lemma insert_adds_no_Exec trx l :
  List.filter is_Exec (calls (snd (InsertTransactionPartitioned drv trx l)))
    = List.filter is_Exec (calls l).
Proof.
  destruct (insertWith_calls drv sqlInsertTransactionPartitioned trx l) as [qe Hq].
  unfold InsertTransactionPartitioned. rewrite Hq, List.filter_app. simpl.
  apply app_nil_r.
Qed.

(** A cached insert that returns no error leaves the key of its day
    marked in the cache. *)
Lemma Cached_success_marks trx l trx1 l1 :
  InsertTransactionPartitionedDynamicCached drv trx l = ((trx1, None), l1) →
  childTableMap l1 !! cacheKey (ChildTableName (TrxDate trx)) = Some (any_bool true).
Proof.
  intros Hrun.
  destruct (knownExisting (childTableMap l !! cacheKey (ChildTableName (TrxDate trx))))
    eqn:Hk.
  - rewrite Cached_hit in Hrun by exact Hk.
    pose proof (insertWith_childTableMap drv sqlInsertTransactionPartitioned trx l) as Hm.
    unfold InsertTransactionPartitioned in Hrun. rewrite Hrun in Hm. simpl in Hm.
    rewrite Hm. apply knownExisting_true. exact Hk.
  - rewrite Cached_miss in Hrun by exact Hk.
    destruct (CreateNewPartitionChildTable drv (TrxDate trx) l) as [[e|] l0];
      [discriminate|].
    set (l2 := mkLogic (db l0) _ (calls l0)) in Hrun.
    pose proof (insertWith_childTableMap drv sqlInsertTransactionPartitioned trx l2) as Hm.
    unfold InsertTransactionPartitioned in Hrun. rewrite Hrun in Hm. simpl in Hm.
    rewrite Hm. apply lookup_insert_eq.
Qed.

(** C1 (as amended). When the query of a fetch returns no row, the fetch
    returns the zero-valued record together with a nil error: the source
    has no not-found error, in either fetch. *)
Theorem fetch_no_rows_returns_zero_record
    (partitioned : bool) (id userID : string) (date : Time) l (d : DB drv)
    (res : Rows (Row drv)) :
  let sql := if partitioned then sqlFetchTransactionPartitioned else sqlFetchTransaction in
  let fetch := if partitioned then FetchOneTransactionPartitioned drv
               else FetchOneTransactionWithoutPartition drv in
  db_Query drv (db l) sql [ArgString id; ArgString userID; ArgTime date] = (d, inl res) →
  rows_next res = [] →
  fst (fetch id userID date l) = (Transaction_zero, None).
Proof.
  intros sql fetch Hq Hrows.
  assert (fetch = fetchWith drv sql) as -> by (subst sql fetch; destruct partitioned; reflexivity).
  unfold fetchWith, bind, ret, Query. rewrite Hq, Hrows. reflexivity.
Qed.

(** C2. The cached insert computes the key of the record's day from its
    [TrxDate] and looks it up in the cache. When the cache holds [true] at
    that key it is the partitioned insert, with no creation call. In every
    other case it first calls the creation of the child table; if that
    fails nothing else happens, and if it succeeds the key is marked and
    then the partitioned insert is performed. *)
Theorem cached_insert_flow trx l :
  let key := cacheKey (ChildTableName (TrxDate trx)) in
  let sql := childTableSQL (TrxDate trx) in
  let r := InsertTransactionPartitionedDynamicCached drv trx l in
  (childTableMap l !! key = Some (any_bool true) →
     r = InsertTransactionPartitioned drv trx l
     ∧ childTableMap (snd r) = childTableMap l
     ∧ ∃ qerr, calls (snd r)
                = calls l ++ [CallQuery sqlInsertTransactionPartitioned (insertArgs trx) qerr])
  ∧ (childTableMap l !! key ≠ Some (any_bool true) →
     match CreateNewPartitionChildTable drv (TrxDate trx) l with
     | (Some e, l1) =>
         r = ((trx, Some e), l1)
         ∧ childTableMap l1 = childTableMap l
         ∧ ∃ cerr, calls l1 = calls l ++ [CallExec sql (Some cerr)]
     | (None, l1) =>
         calls l1 = calls l ++ [CallExec sql None]
         ∧ r = InsertTransactionPartitioned drv trx
                 (mkLogic (db l1) (<[key := any_bool true]> (childTableMap l)) (calls l1))
         ∧ childTableMap (snd r) = <[key := any_bool true]> (childTableMap l)
         ∧ ∃ qerr, calls (snd r)
                    = calls l ++ [CallExec sql None;
                                  CallQuery sqlInsertTransactionPartitioned (insertArgs trx) qerr]
     end).
Proof.
  intros key sql r. subst r. split.
  - intros Hmarked. apply knownExisting_true in Hmarked.
    rewrite Cached_hit by exact Hmarked. split; [reflexivity|]. split.
    + apply insertWith_childTableMap.
    + apply insertWith_calls.
  - intros Hunmarked.
    assert (Hk : knownExisting (childTableMap l !! key) = false).
    { destruct (knownExisting (childTableMap l !! key)) eqn:Hk; [|reflexivity].
      apply knownExisting_true in Hk. contradiction. }
    rewrite Cached_miss by exact Hk. fold key.
    pose proof (CreateNewPartitionChildTable_childTableMap drv (TrxDate trx) l) as Hm.
    destruct (CreateNewPartitionChildTable_calls drv (TrxDate trx) l) as [err [Hc Herr]].
    fold sql in Hc.
    destruct (CreateNewPartitionChildTable drv (TrxDate trx) l) as [[e|] l1]; simpl in *.
    + split; [reflexivity|]. split; [exact Hm|].
      destruct err as [cerr|]; [eauto|]. destruct Herr as [Herr _].
      discriminate (Herr eq_refl).
    + rewrite (proj2 Herr eq_refl) in Hc. rewrite Hm.
      split; [exact Hc|]. split; [reflexivity|].
      set (l2 := mkLogic (db l1) _ (calls l1)).
      unfold InsertTransactionPartitioned. split.
      * rewrite insertWith_childTableMap. reflexivity.
      * destruct (insertWith_calls drv sqlInsertTransactionPartitioned trx l2) as [qe Hq].
        exists qe. rewrite Hq. simpl. rewrite Hc, <- app_assoc. reflexivity.
Qed.

(** C3. When the creation of the child table fails inside the cached
    insert, the cache is unchanged (the key of the day is still not known,
    and absent if the cache was well formed), the error of the creation is
    the error returned, and the only statement sent is the creation: no
    insert. *)
Theorem cached_creation_failure trx l (e : error) l1 :
  let key := cacheKey (ChildTableName (TrxDate trx)) in
  knownExisting (childTableMap l !! key) = false →
  CreateNewPartitionChildTable drv (TrxDate trx) l = (Some e, l1) →
  InsertTransactionPartitionedDynamicCached drv trx l = ((trx, Some e), l1)
  ∧ childTableMap l1 = childTableMap l
  ∧ knownExisting (childTableMap l1 !! key) = false
  ∧ (cache_ok l → childTableMap l1 !! key = None)
  ∧ ∃ cerr, calls l1 = calls l ++ [CallExec (childTableSQL (TrxDate trx)) (Some cerr)].
Proof.
  intros key Hk Hcreate.
  pose proof (CreateNewPartitionChildTable_childTableMap drv (TrxDate trx) l) as Hm.
  destruct (CreateNewPartitionChildTable_calls drv (TrxDate trx) l) as [err [Hc Herr]].
  rewrite Hcreate in Hm, Hc, Herr. simpl in Hm, Hc, Herr.
  split; [rewrite Cached_miss by exact Hk; rewrite Hcreate; reflexivity|].
  split; [exact Hm|]. rewrite Hm. split; [exact Hk|]. split.
  - intros Hok. destruct (childTableMap l !! key) as [v|] eqn:Hlook; [|reflexivity].
    destruct (Hok key v Hlook) as [-> _]. discriminate Hk.
  - destruct err as [cerr|]; [eauto|]. destruct Herr as [Herr _].
    discriminate (Herr eq_refl).
Qed.

(** C5. The cache invariant. In every state reached from [NewLogic] by
    calls of the methods, every entry holds [true] and belongs to a child
    table whose creation statement returned without error. A call writes
    nothing but [true], removes no entry and leaves a [true] entry [true].
    Looking up a key that is not in the cache reports that the table is not
    known. *)
Theorem cache_invariant :
  (∀ (d : DB drv) (ops : list Op), cache_ok (run_ops ops (NewLogic d)))
  ∧ (∀ l (o : Op), cache_ok l → cache_ok (run_op o l))
  ∧ (∀ l (o : Op) key v,
       childTableMap (run_op o l) !! key = Some v →
       v = any_bool true ∨ childTableMap l !! key = Some v)
  ∧ (∀ l (o : Op) key,
       is_Some (childTableMap l !! key) → is_Some (childTableMap (run_op o l) !! key))
  ∧ (∀ l (o : Op) key,
       childTableMap l !! key = Some (any_bool true) →
       childTableMap (run_op o l) !! key = Some (any_bool true))
  ∧ (∀ l key,
       childTableMap l !! key = None →
       fst (Load drv key l) = None ∧ knownExisting (fst (Load drv key l)) = false).
Proof.
  split; [|split; [|split; [|split; [|split]]]].
  - intros d ops. apply run_ops_cache_ok. intros key v Hlook. simpl in Hlook.
    rewrite lookup_empty in Hlook. discriminate.
  - intros l o Hok. eapply step_ok_cache_ok; [apply run_op_step | exact Hok].
  - intros l o key v Hlook.
    eapply step_ok_writes_true; [apply run_op_step | exact Hlook].
  - intros l o key Hlook.
    eapply step_ok_keeps_present; [apply run_op_step | exact Hlook].
  - intros l o key Hlook.
    eapply step_ok_keeps_true; [apply run_op_step | exact Hlook].
  - intros l key Hlook. unfold Load. simpl. rewrite Hlook. split; reflexivity.
Qed.

(** C8. The dynamic insert always sends the creation of the child table of
    the record's day first. If the creation fails its error is returned and
    no insert is sent; otherwise the partitioned insert is performed. *)
Theorem dynamic_insert_flow trx l :
  let sql := childTableSQL (TrxDate trx) in
  let r := InsertTransactionPartitionedDynamic drv trx l in
  match CreateNewPartitionChildTable drv (TrxDate trx) l with
  | (Some e, l1) =>
      r = ((trx, Some e), l1)
      ∧ ∃ cerr, calls l1 = calls l ++ [CallExec sql (Some cerr)]
  | (None, l1) =>
      r = InsertTransactionPartitioned drv trx l1
      ∧ calls l1 = calls l ++ [CallExec sql None]
      ∧ ∃ qerr, calls (snd r)
                 = calls l ++ [CallExec sql None;
                               CallQuery sqlInsertTransactionPartitioned (insertArgs trx) qerr]
  end.
Proof.
  intros sql r. subst r. unfold InsertTransactionPartitionedDynamic, bind, ret.
  destruct (CreateNewPartitionChildTable_calls drv (TrxDate trx) l) as [err [Hc Herr]].
  fold sql in Hc.
  destruct (CreateNewPartitionChildTable drv (TrxDate trx) l) as [[e|] l1]; simpl in *.
  - split; [reflexivity|]. destruct err as [cerr|]; [eauto|].
    destruct Herr as [Herr _]. discriminate (Herr eq_refl).
  - rewrite (proj2 Herr eq_refl) in Hc. split; [reflexivity|]. split; [exact Hc|].
    destruct (insertWith_calls drv sqlInsertTransactionPartitioned trx l1) as [qe Hq].
    exists qe. unfold InsertTransactionPartitioned. rewrite Hq, Hc, <- app_assoc.
    reflexivity.
Qed.

(** C9. Once a cached insert for a day has returned without error, then
    after any further calls of the methods, a cached insert for any
    timestamp of the same UTC day sends its insert and nothing else: no
    schema statement is added to the log. *)
Theorem cached_amortization trx l trx1 l1 (ops : list Op) trx2 :
  InsertTransactionPartitionedDynamicCached drv trx l = ((trx1, None), l1) →
  utcDate (TrxDate trx2) = utcDate (TrxDate trx) →
  let l2 := run_ops ops l1 in
  let r := InsertTransactionPartitionedDynamicCached drv trx2 l2 in
  List.filter is_Exec (calls (snd r)) = List.filter is_Exec (calls l2)
  ∧ ∃ qerr, calls (snd r)
             = calls l2 ++ [CallQuery sqlInsertTransactionPartitioned (insertArgs trx2) qerr].
Proof.
  intros Hrun Hday l2 r.
  assert (Hk : knownExisting
                 (childTableMap l2 !! cacheKey (ChildTableName (TrxDate trx2))) = true).
  { apply knownExisting_true. rewrite (ChildTableName_utcDate _ _ Hday).
    apply run_ops_keeps_true. eapply Cached_success_marks. exact Hrun. }
  subst r. rewrite Cached_hit by exact Hk. split.
  - apply insert_adds_no_Exec.
  - apply insertWith_calls.
Qed.

(** C10. When the key of the record's day is already marked [true] in the
    cache, the cached insert is the partitioned insert: the same record,
    the same error and the same state of the receiver afterwards, with the
    cache as it was and no schema statement sent. *)
Theorem cached_hit_is_partitioned_insert trx l :
  childTableMap l !! cacheKey (ChildTableName (TrxDate trx)) = Some (any_bool true) →
  let r := InsertTransactionPartitionedDynamicCached drv trx l in
  r = InsertTransactionPartitioned drv trx l
  ∧ childTableMap (snd r) = childTableMap l
  ∧ List.filter is_Exec (calls (snd r)) = List.filter is_Exec (calls l).
Proof.
  intros Hlook r. subst r.
  rewrite Cached_hit by (apply knownExisting_true; exact Hlook).
  split; [reflexivity|]. split.
  - apply insertWith_childTableMap.
  - apply insert_adds_no_Exec.
Qed.

End CoreProps.

(** ** Calendar arithmetic *)

Section Calendar.

Lemma to_uint64_range z : 0 ≤ to_uint64 z < 2 ^ 64.
Proof. unfold to_uint64. apply Z.mod_pos_bound. reflexivity. Qed.

Lemma to_uint64_small z : 0 ≤ z < 2 ^ 64 → to_uint64 z = z.
Proof. intros H. unfold to_uint64. apply Z.mod_small. exact H. Qed.

Lemma to_int64_small z : - 2 ^ 63 ≤ z < 2 ^ 63 → to_int64 z = z.
Proof. intros H. unfold to_int64. rewrite Z.mod_small; lia. Qed.

Lemma to_uint64_to_int64_add z c : to_uint64 (to_int64 z + c) = to_uint64 (z + c).
Proof.
  unfold to_uint64, to_int64.
  change (2 ^ 64) with 18446744073709551616.
  change (2 ^ 63) with 9223372036854775808. euclid.
Qed.

Lemma to_uint64_idem_add z c : to_uint64 (to_uint64 z + c) = to_uint64 (z + c).
Proof. unfold to_uint64. apply Zplus_mod_idemp_l. Qed.

(** [isLeap] in terms of the mathematical remainder. *)
Lemma isLeap_mod year :
  isLeap year
    = (year mod 4 =? 0) && (negb (year mod 100 =? 0) || (year mod 400 =? 0)).
Proof.
  unfold isLeap.
  assert (H4 : (Z.rem year 4 =? 0) = (year mod 4 =? 0)).
  { destruct (Z.eqb_spec (Z.rem year 4) 0), (Z.eqb_spec (year mod 4) 0);
      try reflexivity; exfalso; euclid. }
  assert (H100 : (Z.rem year 100 =? 0) = (year mod 100 =? 0)).
  { destruct (Z.eqb_spec (Z.rem year 100) 0), (Z.eqb_spec (year mod 100) 0);
      try reflexivity; exfalso; euclid. }
  assert (H400 : (Z.rem year 400 =? 0) = (year mod 400 =? 0)).
  { destruct (Z.eqb_spec (Z.rem year 400) 0), (Z.eqb_spec (year mod 400) 0);
      try reflexivity; exfalso; euclid. }
  rewrite H4, H100, H400. reflexivity.
Qed.

(** The cycles of [absYearDay]: day [D] since the absolute epoch falls in
    year [y] since the absolute zero year, on day [yday] of that year. *)
Lemma year_cycles (D : Z) :
  0 ≤ D →
  let n400 := D / 146097 in
  let r1 := D - 146097 * n400 in
  let q100 := r1 / 36524 in
  let n100 := q100 - q100 / 4 in
  let r2 := r1 - 36524 * n100 in
  let q4 := r2 / 1461 in
  let r3 := r2 - 1461 * q4 in
  let q1 := r3 / 365 in
  let n1 := q1 - q1 / 4 in
  let yday := r3 - 365 * n1 in
  0 ≤ n400 ∧ 0 ≤ n100 ≤ 3 ∧ 0 ≤ q4 ≤ 24 ∧ 0 ≤ n1 ≤ 3 ∧ 0 ≤ yday ≤ 365
  ∧ D = 146097 * n400 + 36524 * n100 + 1461 * q4 + 365 * n1 + yday
  ∧ (365 ≤ yday → n1 = 3 ∧ (q4 < 24 ∨ n100 = 3)).
Proof. intros HD. cbv zeta. euclid. Qed.

(** The days before a year that is [y] years after the absolute zero
    year, [y] being split into its cycles. *)
Lemma daysSinceEpoch_cycles (n400 n100 q4 n1 : Z) :
  0 ≤ n400 < 2 ^ 40 → 0 ≤ n100 ≤ 3 → 0 ≤ q4 ≤ 24 → 0 ≤ n1 ≤ 3 →
  daysSinceEpoch (400 * n400 + 100 * n100 + 4 * q4 + n1 + absoluteZeroYear)
    = 146097 * n400 + 36524 * n100 + 1461 * q4 + 365 * n1.
Proof.
  intros H400 H100 H4 H1. unfold daysSinceEpoch.
  change (2 ^ 40) with 1099511627776 in H400.
  rewrite to_int64_small
    by (unfold absoluteZeroYear; change (2 ^ 63) with 9223372036854775808; lia).
  rewrite to_uint64_small
    by (unfold absoluteZeroYear; change (2 ^ 64) with 18446744073709551616; lia).
  unfold daysPer400Years, daysPer100Years, daysPer4Years. euclid.
Qed.

(** Which of these years are leap years. *)
Lemma isLeap_cycles (n400 n100 q4 n1 : Z) :
  0 ≤ n100 ≤ 3 → 0 ≤ q4 ≤ 24 → 0 ≤ n1 ≤ 3 →
  isLeap (400 * n400 + 100 * n100 + 4 * q4 + n1 + absoluteZeroYear)
    = (n1 =? 3) && (negb (q4 =? 24) || (n100 =? 3)).
Proof.
  intros H100 H4 H1. rewrite isLeap_mod. unfold absoluteZeroYear.
  set (year := _ + _ + _ + _ + _).
  assert (year mod 4 = (n1 + 1) mod 4) as -> by (subst year; euclid).
  assert (year mod 100 = (4 * q4 + n1 + 1) mod 100) as -> by (subst year; euclid).
  assert (year mod 400 = (100 * n100 + 4 * q4 + n1 + 1) mod 400) as ->
    by (subst year; euclid).
  destruct (Z.eqb_spec n1 3), (Z.eqb_spec q4 24), (Z.eqb_spec n100 3); subst; simpl;
    repeat match goal with
    | |- context [?a mod ?b =? 0] => destruct (Z.eqb_spec (a mod b) 0)
    end; simpl; try reflexivity; exfalso; euclid.
Qed.

(** [absYearDay] inverts [daysSinceEpoch]: the days before the year plus
    the day within the year give back the day number, and the day within
    the year is a day of that year. *)
Lemma absYearDay_spec (abs : Z) :
  0 ≤ abs < 2 ^ 64 →
  let '(year, yday) := absYearDay abs in
  daysSinceEpoch year + yday = abs / secondsPerDay
  ∧ 0 ≤ yday < (if isLeap year then 366 else 365)
  ∧ - 2 ^ 62 ≤ year < 2 ^ 62.
Proof.
  intros Habs. unfold absYearDay.
  set (D := abs / secondsPerDay).
  assert (HD : 0 ≤ D < 2 ^ 48).
  { subst D. unfold secondsPerDay, secondsPerHour, secondsPerMinute.
    change (2 ^ 64) with 18446744073709551616 in Habs.
    change (2 ^ 48) with 281474976710656. euclid. }
  rewrite !Z.shiftr_div_pow2 by lia. change (2 ^ 2) with 4.
  unfold daysPer400Years, daysPer100Years, daysPer4Years.
  change (365 * 400 + 97) with 146097. change (365 * 100 + 24) with 36524.
  change (365 * 4 + 1) with 1461.
  pose proof (year_cycles D (proj1 HD)) as Hc. cbv zeta in Hc.
  set (n400 := D / 146097) in *.
  set (r1 := D - 146097 * n400) in *.
  set (n100 := r1 / 36524 - r1 / 36524 / 4) in *.
  set (r2 := r1 - 36524 * n100) in *.
  set (q4 := r2 / 1461) in *.
  set (r3 := r2 - 1461 * q4) in *.
  set (n1 := r3 / 365 - r3 / 365 / 4) in *.
  set (yday := r3 - 365 * n1) in *.
  destruct Hc as (H400 & H100 & H4 & H1 & Hyday & HDeq & Hlast).
  assert (H400' : n400 < 2 ^ 40).
  { subst n400. change (2 ^ 48) with 281474976710656 in HD.
    change (2 ^ 40) with 1099511627776. euclid. }
  change (2 ^ 40) with 1099511627776 in H400'.
  rewrite (to_int64_small (400 * n400 + 100 * n100 + 4 * q4 + n1))
    by (change (2 ^ 63) with 9223372036854775808; lia).
  rewrite to_int64_small
    by (unfold absoluteZeroYear; change (2 ^ 63) with 9223372036854775808; lia).
  rewrite daysSinceEpoch_cycles
    by (try change (2 ^ 40) with 1099511627776; lia).
  rewrite isLeap_cycles by lia.
  split; [lia|]. split.
  - destruct (Z.eqb_spec n1 3), (Z.eqb_spec q4 24), (Z.eqb_spec n100 3); simpl; lia.
  - unfold absoluteZeroYear. change (2 ^ 62) with 4611686018427387904. lia.
Qed.

(** [monthDay] only looks at whether the year is a leap year. *)
Lemma monthDay_isLeap (y1 y2 yday : Z) :
  isLeap y1 = isLeap y2 → monthDay y1 yday = monthDay y2 yday.
Proof. intros H. unfold monthDay. rewrite H. reflexivity. Qed.

(** A property of the numbers below a bound, checked one number at a time. *)
Lemma forall_below (n : nat) (P : Z → bool) :
  forallb (fun k => P (Z.of_nat k)) (seq 0 n) = true →
  ∀ z, 0 ≤ z < Z.of_nat n → P z = true.
Proof.
  intros Hall z Hz. rewrite forallb_forall in Hall.
  specialize (Hall (Z.to_nat z)). rewrite Z2Nat.id in Hall by lia.
  apply Hall. apply in_seq. lia.
Qed.

(** [monthDay] inverts the count of the days before a date within its
    year: the month is one of the twelve, the day one of at most 31, and
    the days before the month (with the leap day once past February) plus
    the days before the day give back the day of the year. *)
Lemma monthDay_spec (year yday : Z) :
  0 ≤ yday < (if isLeap year then 366 else 365) →
  let '(month, day) := monthDay year yday in
  1 ≤ month ≤ 12 ∧ 1 ≤ day ≤ 31
  ∧ daysBefore_at (month - 1)
      + (if isLeap year && (month >=? March) then 1 else 0) + (day - 1) = yday.
Proof.
  set (ok := fun (y yd : Z) =>
    let '(month, day) := monthDay y yd in
    (1 <=? month) && (month <=? 12) && (1 <=? day) && (day <=? 31)
    && (daysBefore_at (month - 1)
        + (if isLeap y && (month >=? March) then 1 else 0) + (day - 1) =? yd)).
  assert (Hok : ∀ y yd, ok y yd = true →
            let '(month, day) := monthDay y yd in
            1 ≤ month ≤ 12 ∧ 1 ≤ day ≤ 31
            ∧ daysBefore_at (month - 1)
                + (if isLeap y && (month >=? March) then 1 else 0) + (day - 1) = yd).
  { intros y yd. unfold ok. destruct (monthDay y yd) as [m d]. intros H.
    repeat (apply andb_prop in H; destruct H as [H ?]). lia. }
  intros Hyday. destruct (isLeap year) eqn:Hleap.
  - assert (H4 : ok 4 yday = true) by (apply (forall_below 366 (ok 4)); [vm_compute; reflexivity | lia]).
    apply Hok in H4. rewrite (monthDay_isLeap year 4) by (rewrite Hleap; reflexivity).
    exact H4.
  - assert (H1 : ok 1 yday = true) by (apply (forall_below 365 (ok 1)); [vm_compute; reflexivity | lia]).
    apply Hok in H1. rewrite (monthDay_isLeap year 1) by (rewrite Hleap; reflexivity).
    exact H1.
Qed.

Lemma norm_id (hi lo base : Z) : 0 ≤ lo < base → norm hi lo base = (hi, lo).
Proof.
  intros H. unfold norm.
  destruct (Z.ltb_spec lo 0); [lia|].
  destruct (Z.geb_spec lo base); [lia | reflexivity].
Qed.

Lemma Time_abs_range (t : Time) : 0 ≤ Time_abs t < 2 ^ 64.
Proof. unfold Time_abs. apply to_uint64_range. Qed.

(** The absolute time of midnight UTC of the date of an absolute time is
    the absolute time cut down to whole days. *)
Lemma Time_abs_Date (abs : Z) :
  0 ≤ abs < 2 ^ 64 →
  let '(year, month, day, _) := absDate abs in
  Time_abs (Date year month day 0 0 0 0 UTC) = abs / secondsPerDay * secondsPerDay.
Proof.
  intros Habs. unfold absDate.
  pose proof (absYearDay_spec abs Habs) as Hy.
  destruct (absYearDay abs) as [year yday]. destruct Hy as (Hdays & Hyday & Hyear).
  pose proof (monthDay_spec year yday Hyday) as Hm.
  destruct (monthDay year yday) as [month day]. destruct Hm as (Hmonth & Hday & Hsum).
  unfold Date.
  rewrite (norm_id year (month - 1) 12) by lia.
  change (norm 0 0 1000000000) with (0, 0). cbv beta iota zeta.
  change (norm 0 0 60) with (0, 0). cbv beta iota zeta.
  change (norm 0 0 60) with (0, 0). cbv beta iota zeta.
  rewrite (norm_id day 0 24) by lia. cbv beta iota zeta.
  replace (month - 1 + 1) with month by lia.
  set (D := abs / secondsPerDay) in *.
  assert (HD : 0 ≤ D ∧ D * secondsPerDay ≤ abs).
  { subst D. unfold secondsPerDay, secondsPerHour, secondsPerMinute. euclid. }
  assert (Hd : to_uint64
                 ((if isLeap year && (month >=? March)
                   then daysSinceEpoch year + daysBefore_at (month - 1) + 1
                   else daysSinceEpoch year + daysBefore_at (month - 1))
                  + to_uint64 (day - 1)) = D).
  { rewrite (to_uint64_small (day - 1))
      by (change (2 ^ 64) with 18446744073709551616; lia).
    rewrite to_uint64_small.
    - destruct (isLeap year && (month >=? March)); lia.
    - change (2 ^ 64) with 18446744073709551616 in *.
      destruct (isLeap year && (month >=? March));
        unfold secondsPerDay, secondsPerHour, secondsPerMinute in HD; lia. }
  rewrite Hd.
  assert (HS : 0 ≤ D * secondsPerDay < 2 ^ 64).
  { unfold secondsPerDay, secondsPerHour, secondsPerMinute in *. lia. }
  rewrite (to_uint64_small (D * secondsPerDay)) by exact HS.
  change (to_uint64 (0 * secondsPerHour + 0 * secondsPerMinute + 0)) with 0.
  rewrite Z.add_0_r, (to_uint64_small (D * secondsPerDay)) by exact HS.
  unfold Time_abs. cbn [loc unixSec zone_offset]. rewrite Z.sub_0_r.
  rewrite !to_uint64_to_int64_add, <- Z.add_assoc, to_uint64_to_int64_add.
  replace (D * secondsPerDay + (absoluteToInternal + internalToUnix
             + (unixToInternal + internalToAbsolute)))
    with (D * secondsPerDay)
    by (unfold internalToUnix, internalToAbsolute; lia).
  apply to_uint64_small. exact HS.
Qed.

(** [absDate] only looks at the day number of an absolute time. *)
Lemma absDate_day (a1 a2 : Z) :
  a1 / secondsPerDay = a2 / secondsPerDay → absDate a1 = absDate a2.
Proof. intros H. unfold absDate, absYearDay. rewrite H. reflexivity. Qed.

(** Reading the date of midnight of a date gives the date back. *)
Lemma absDate_Date (abs : Z) :
  0 ≤ abs < 2 ^ 64 →
  let '(year, month, day, _) := absDate abs in
  absDate (Time_abs (Date year month day 0 0 0 0 UTC)) = absDate abs.
Proof.
  intros Habs. pose proof (Time_abs_Date abs Habs) as H.
  destruct (absDate abs) as [[[year month] day] yday] eqn:E.
  rewrite H, <- E. apply absDate_day. apply Z.div_mul. discriminate.
Qed.

(** The date of an absolute time determines its day number. *)
Lemma absDate_spec (abs : Z) :
  0 ≤ abs < 2 ^ 64 →
  let '(year, month, day, _) := absDate abs in
  daysSinceEpoch year + daysBefore_at (month - 1)
    + (if isLeap year && (month >=? March) then 1 else 0) + (day - 1)
    = abs / secondsPerDay
  ∧ - 2 ^ 62 ≤ year < 2 ^ 62 ∧ 1 ≤ month ≤ 12 ∧ 1 ≤ day ≤ 31.
Proof.
  intros Habs. unfold absDate.
  pose proof (absYearDay_spec abs Habs) as Hy.
  destruct (absYearDay abs) as [year yday]. destruct Hy as (Hdays & Hyday & Hyear).
  pose proof (monthDay_spec year yday Hyday) as Hm.
  destruct (monthDay year yday) as [month day]. destruct Hm as (Hmonth & Hday & Hsum).
  repeat split; try lia.
Qed.

Lemma utcDate_absDate (t : Time) :
  ∃ yday, absDate (Time_abs (Time_UTC t))
          = (let '(y, m, d) := utcDate t in (y, m, d, yday)).
Proof.
  unfold utcDate, Time_Year, Time_Month, Time_Day.
  destruct (absDate (Time_abs (Time_UTC t))) as [[[y m] d] yd]. exists yd. reflexivity.
Qed.

Lemma utcDate_range (t : Time) :
  let '(year, month, day) := utcDate t in
  - 2 ^ 62 ≤ year < 2 ^ 62 ∧ 1 ≤ month ≤ 12 ∧ 1 ≤ day ≤ 31.
Proof.
  destruct (utcDate_absDate t) as [yd H].
  pose proof (absDate_spec _ (Time_abs_range (Time_UTC t))) as Hs.
  rewrite H in Hs. destruct (utcDate t) as [[y m] d]. tauto.
Qed.

(** Two absolute times with the same date are on the same day. *)
Lemma utcDate_day (t1 t2 : Time) :
  utcDate t1 = utcDate t2 →
  Time_abs (Time_UTC t1) / secondsPerDay = Time_abs (Time_UTC t2) / secondsPerDay.
Proof.
  intros Heq.
  destruct (utcDate_absDate t1) as [yd1 H1]. destruct (utcDate_absDate t2) as [yd2 H2].
  pose proof (absDate_spec _ (Time_abs_range (Time_UTC t1))) as Hs1.
  pose proof (absDate_spec _ (Time_abs_range (Time_UTC t2))) as Hs2.
  rewrite H1 in Hs1. rewrite H2 in Hs2. rewrite <- Heq in Hs2.
  destruct (utcDate t1) as [[y m] d].
  destruct Hs1 as [Hs1 _]. destruct Hs2 as [Hs2 _]. congruence.
Qed.

(** Where Go computes dates, the UTC calendar day of a timestamp and its
    day number since the Unix epoch determine each other. *)
Lemma utcDate_unixDay (t1 t2 : Time) :
  afterAbsoluteZero t1 → afterAbsoluteZero t2 →
  (utcDate t1 = utcDate t2 ↔ unixDay t1 = unixDay t2).
Proof.
  unfold afterAbsoluteZero, unixDay. intros Hr1 Hr2.
  assert (Habs : ∀ t, - (unixToInternal + internalToAbsolute) ≤ unixSec t < 2 ^ 63 →
            Time_abs (Time_UTC t) / secondsPerDay
              = unixSec t / secondsPerDay + 106751991073094).
  { intros t Hr. unfold Time_abs, Time_UTC. cbn [loc unixSec].
    change (unixToInternal + internalToAbsolute) with 9223372028715321600 in *.
    change (2 ^ 63) with 9223372036854775808 in Hr.
    rewrite to_uint64_small by (change (2 ^ 64) with 18446744073709551616; lia).
    change secondsPerDay with 86400. euclid. }
  split.
  - intros Heq. apply utcDate_day in Heq. rewrite !Habs in Heq by assumption. lia.
  - intros Heq.
    assert (Hd : absDate (Time_abs (Time_UTC t1)) = absDate (Time_abs (Time_UTC t2))).
    { apply absDate_day. rewrite !Habs by assumption. lia. }
    unfold utcDate, Time_Year, Time_Month, Time_Day. rewrite Hd. reflexivity.
Qed.

(** The name of the child table spells out the UTC calendar day. *)
Lemma ChildTableName_utc (t : Time) :
  let '(year, month, day) := utcDate t in
  ChildTableName t
    = "transaction_partition_y" +:+ appendInt EmptyString year 4
        +:+ "_m" +:+ appendInt EmptyString month 2
        +:+ "_d" +:+ appendInt EmptyString day 2.
Proof.
  destruct (utcDate_absDate t) as [yd H].
  pose proof (absDate_Date _ (Time_abs_range (Time_UTC t))) as Hr.
  unfold ChildTableName, Time_Year, Time_Month, Time_Day.
  rewrite H in Hr |- *. destruct (utcDate t) as [[y m] d].
  unfold Time_Format, layout_2006, layout_01, layout_02, fold_left, appendChunk.
  rewrite Hr. destruct (absClock _) as [[hh mm] ss]. reflexivity.
Qed.

End Calendar.

(** ** Strings and decimal formatting *)

Section Formatting.

Lemma string_app_cons (c : ascii) (s1 s2 : string) :
  String c s1 +:+ s2 = String c (s1 +:+ s2).
Proof. reflexivity. Qed.

Lemma string_app_nil_r (s : string) : s +:+ EmptyString = s.
Proof.
  induction s as [|c s IH]; [reflexivity|]. rewrite string_app_cons, IH. reflexivity.
Qed.

Lemma string_app_assoc (s1 s2 s3 : string) : (s1 +:+ s2) +:+ s3 = s1 +:+ (s2 +:+ s3).
Proof.
  induction s1 as [|c s1 IH]; [reflexivity|]. rewrite !string_app_cons, IH. reflexivity.
Qed.

Lemma string_app_length (s1 s2 : string) :
  String.length (s1 +:+ s2) = (String.length s1 + String.length s2)%nat.
Proof.
  induction s1 as [|c s1 IH]; [reflexivity|].
  rewrite string_app_cons. cbn [String.length]. rewrite IH. reflexivity.
Qed.

(** Two concatenations that agree, with first parts of the same length,
    agree part by part. *)
Lemma string_app_inj_length (a a' b b' : string) :
  String.length a = String.length a' → a +:+ b = a' +:+ b' → a = a' ∧ b = b'.
Proof.
  revert a'. induction a as [|c a IH]; intros [|c' a'] Hlen Heq;
    try discriminate Hlen.
  - split; [reflexivity | exact Heq].
  - rewrite !string_app_cons in Heq. injection Heq as -> Heq. injection Hlen as Hlen.
    destruct (IH a' Hlen Heq) as [-> ->]. split; reflexivity.
Qed.

Lemma decode_app (s1 s2 : string) (acc : Z) :
  decode (s1 +:+ s2) acc = decode s2 (decode s1 acc).
Proof.
  revert acc. induction s1 as [|c s1 IH]; intros acc; [reflexivity|].
  rewrite string_app_cons. cbn [decode]. apply IH.
Qed.

Lemma digitValue_digit (u : Z) : 0 ≤ u < 10 → digitValue (digit u) = u.
Proof.
  intros Hu.
  apply Z.eqb_eq.
  apply (forall_below 10 (fun u => digitValue (digit u) =? u));
    [vm_compute; reflexivity | lia].
Qed.

Lemma digit_not_minus (u : Z) : 0 ≤ u < 10 → digit u ≠ "-"%char.
Proof.
  intros Hu Heq. apply (f_equal digitValue) in Heq.
  rewrite digitValue_digit in Heq by exact Hu.
  change (digitValue "-") with (-3) in Heq. lia.
Qed.

(** The digits are put in front of what the buffer already holds. *)
Lemma utoa_app (fuel : nat) (u : Z) (acc : string) :
  utoa fuel u acc = utoa fuel u EmptyString +:+ acc.
Proof.
  revert u acc. induction fuel as [|fuel IH]; intros u acc; [reflexivity|].
  cbn. destruct (u >=? 10); [|reflexivity].
  rewrite (IH _ (String _ acc)), (IH _ (String _ EmptyString)), string_app_assoc.
  reflexivity.
Qed.

(** Reading the digits of a number gives the number back. *)
Lemma decode_utoa (fuel : nat) (u : Z) :
  0 ≤ u < 10 ^ Z.of_nat fuel → decode (utoa fuel u EmptyString) 0 = u.
Proof.
  revert u. induction fuel as [|fuel IH]; intros u Hu.
  - change (10 ^ Z.of_nat 0) with 1 in Hu. cbn. lia.
  - rewrite Nat2Z.inj_succ, Z.pow_succ_r in Hu by lia.
    cbn [utoa]. destruct (Z.geb_spec u 10) as [Hge|Hlt].
    + rewrite utoa_app, decode_app, IH by euclid.
      cbn [decode]. rewrite digitValue_digit by euclid. euclid.
    + cbn [decode]. rewrite digitValue_digit by lia. lia.
Qed.

(** The digits of a number start with a digit. *)
Lemma utoa_head (fuel : nat) (u : Z) (acc : string) :
  0 ≤ u →
  ∃ v rest, 0 ≤ v < 10 ∧ utoa (S fuel) u acc = String (digit v) rest.
Proof.
  revert u acc. induction fuel as [|fuel IH]; intros u acc Hu.
  - cbn. destruct (Z.geb_spec u 10).
    + exists (u - u / 10 * 10), acc. split; [euclid | reflexivity].
    + exists u, acc. split; [lia | reflexivity].
  - cbn [utoa]. destruct (Z.geb_spec u 10).
    + apply IH. euclid.
    + exists u, acc. split; [lia | reflexivity].
Qed.

Lemma decode_zeros (n : nat) (s : string) : decode (zeros n +:+ s) 0 = decode s 0.
Proof.
  induction n as [|n IH]; [reflexivity|].
  cbn [zeros]. rewrite string_app_cons. cbn [decode]. exact IH.
Qed.

(** The padded digits do not start with a minus sign. *)
Lemma padded_head (n : nat) (u : Z) :
  0 ≤ u →
  ∃ c rest, c ≠ "-"%char ∧ zeros n +:+ utoa 20 u EmptyString = String c rest.
Proof.
  intros Hu. destruct n as [|n].
  - destruct (utoa_head 19 u EmptyString Hu) as (v & rest & Hv & Heq).
    exists (digit v), rest. split; [apply digit_not_minus; exact Hv | exact Heq].
  - eexists "0"%char, _. split; [discriminate | reflexivity].
Qed.

(** Reading a formatted integer gives the integer back. *)
Lemma decodeInt_appendInt (x width : Z) :
  - 2 ^ 63 ≤ x < 2 ^ 63 → decodeInt (appendInt EmptyString x width) = x.
Proof.
  intros Hx. unfold appendInt.
  change (2 ^ 63) with 9223372036854775808 in Hx.
  destruct (Z.ltb_spec x 0) as [Hneg|Hpos].
  - rewrite to_uint64_small by (change (2 ^ 64) with 18446744073709551616; lia).
    change (EmptyString +:+ "-") with "-". cbn [String.append decodeInt].
    change ("-" +:+ ?s) with (String "-" s).
    set (n := Z.to_nat _).
    change (decodeInt (String "-" (zeros n +:+ utoa 20 (- x) EmptyString)))
      with (- decode (zeros n +:+ utoa 20 (- x) EmptyString) 0).
    rewrite decode_zeros, decode_utoa; [lia|].
    change (10 ^ Z.of_nat 20) with 100000000000000000000. lia.
  - rewrite to_uint64_small by (change (2 ^ 64) with 18446744073709551616; lia).
    change (EmptyString +:+ ?s) with s.
    set (n := Z.to_nat _).
    destruct (padded_head n x Hpos) as (c & rest & Hc & Heq).
    assert (Hd : decodeInt (zeros n +:+ utoa 20 x EmptyString)
                 = decode (zeros n +:+ utoa 20 x EmptyString) 0).
    { rewrite Heq. unfold decodeInt.
      destruct c as [[] [] [] [] [] [] [] []]; try reflexivity. congruence. }
    rewrite Hd, decode_zeros, decode_utoa; [lia|].
    change (10 ^ Z.of_nat 20) with 100000000000000000000. lia.
Qed.

(** Formatting is injective on the integers of the machine. *)
Lemma appendInt_inj (x y width : Z) :
  - 2 ^ 63 ≤ x < 2 ^ 63 → - 2 ^ 63 ≤ y < 2 ^ 63 →
  appendInt EmptyString x width = appendInt EmptyString y width → x = y.
Proof.
  intros Hx Hy Heq. apply (f_equal decodeInt) in Heq.
  rewrite !decodeInt_appendInt in Heq by assumption. exact Heq.
Qed.

(** A number below 100 formatted to width 2 has two characters. *)
Lemma appendInt_width2 (x : Z) :
  0 ≤ x < 100 → String.length (appendInt EmptyString x 2) = 2%nat.
Proof.
  intros Hx. apply Nat.eqb_eq.
  apply (forall_below 100
           (fun x => Nat.eqb (String.length (appendInt EmptyString x 2)) 2));
    [vm_compute; reflexivity | lia].
Qed.

(** A year of four digits formatted to width 4 has four characters. *)
Lemma appendInt_width4 (x : Z) :
  0 ≤ x < 10000 → String.length (appendInt EmptyString x 4) = 4%nat.
Proof.
  intros Hx. apply Nat.eqb_eq.
  apply (forall_below (Z.to_nat 10000)
           (fun x => Nat.eqb (String.length (appendInt EmptyString x 4)) 4));
    [vm_compute; reflexivity | rewrite Z2Nat.id; lia].
Qed.

End Formatting.

(** ** The name of a child table *)

Section Naming.

(** The fields of a name can be told apart. *)
Lemma name_fields_inj (y1 y2 m1 m2 d1 d2 : string) :
  String.length m1 = 2%nat → String.length m2 = 2%nat →
  String.length d1 = 2%nat → String.length d2 = 2%nat →
  "transaction_partition_y" +:+ y1 +:+ "_m" +:+ m1 +:+ "_d" +:+ d1
    = "transaction_partition_y" +:+ y2 +:+ "_m" +:+ m2 +:+ "_d" +:+ d2 →
  y1 = y2 ∧ m1 = m2 ∧ d1 = d2.
Proof.
  intros Hm1 Hm2 Hd1 Hd2 Heq.
  apply String.app_inj in Heq.
  pose proof (f_equal String.length Heq) as Hlen.
  rewrite !string_app_length, Hm1, Hm2, Hd1, Hd2 in Hlen.
  apply string_app_inj_length in Heq; [|lia]. destruct Heq as [-> Heq].
  apply String.app_inj in Heq.
  apply string_app_inj_length in Heq; [|congruence]. destruct Heq as [-> Heq].
  apply String.app_inj in Heq. auto.
Qed.

(** C6. Two timestamps get the same child-table name exactly when they
    fall on the same UTC calendar day, whatever their time of day and their
    location; and, for the timestamps whose date Go computes, exactly when
    they are the same number of whole days after the Unix epoch. *)
Theorem ChildTableName_same_day_iff :
  (∀ t1 t2 : Time, ChildTableName t1 = ChildTableName t2 ↔ utcDate t1 = utcDate t2)
  ∧ (∀ t1 t2 : Time, afterAbsoluteZero t1 → afterAbsoluteZero t2 →
       (ChildTableName t1 = ChildTableName t2 ↔ unixDay t1 = unixDay t2)).
Proof.
  assert (Hiff : ∀ t1 t2 : Time,
            ChildTableName t1 = ChildTableName t2 ↔ utcDate t1 = utcDate t2).
  { intros t1 t2. split; [|apply ChildTableName_utcDate].
    intros Heq.
    pose proof (ChildTableName_utc t1) as H1. pose proof (ChildTableName_utc t2) as H2.
    pose proof (utcDate_range t1) as R1. pose proof (utcDate_range t2) as R2.
    destruct (utcDate t1) as [[y1 m1] d1]. destruct (utcDate t2) as [[y2 m2] d2].
    rewrite H1, H2 in Heq.
    apply name_fields_inj in Heq; try (apply appendInt_width2; lia).
    destruct Heq as (Hy & Hm & Hd).
    change (2 ^ 62) with 4611686018427387904 in *.
    apply appendInt_inj in Hy; try (change (2 ^ 63) with 9223372036854775808; lia).
    apply appendInt_inj in Hm; try (change (2 ^ 63) with 9223372036854775808; lia).
    apply appendInt_inj in Hd; try (change (2 ^ 63) with 9223372036854775808; lia).
    congruence. }
  split; [exact Hiff|].
  intros t1 t2 Hr1 Hr2. rewrite Hiff. apply utcDate_unixDay; assumption.
Qed.

(** C7 (as amended). The name of the child table of a timestamp is
    [transaction_partition_y], the year, [_m], the month, [_d] and the day
    of the timestamp in UTC, in decimal, the year padded with zeros to at
    least four digits (after a minus sign when it is negative) and the
    month and the day to two; the three fields read back as the year, the
    month and the day. The year takes exactly four characters when it is
    between 0 and 9999. The two timestamps of the specification get the
    names it gives. *)
Theorem ChildTableName_format :
  (∀ t : Time,
     let '(year, month, day) := utcDate t in
     ChildTableName t
       = "transaction_partition_y" +:+ appendInt EmptyString year 4
           +:+ "_m" +:+ appendInt EmptyString month 2
           +:+ "_d" +:+ appendInt EmptyString day 2
     ∧ decodeInt (appendInt EmptyString year 4) = year
     ∧ decodeInt (appendInt EmptyString month 2) = month
     ∧ decodeInt (appendInt EmptyString day 2) = day
     ∧ String.length (appendInt EmptyString month 2) = 2%nat
     ∧ String.length (appendInt EmptyString day 2) = 2%nat
     ∧ (0 ≤ year < 10000 → String.length (appendInt EmptyString year 4) = 4%nat))
  ∧ ChildTableName (Date 2021 6 30 23 59 59 0 UTC) = "transaction_partition_y2021_m06_d30"
  ∧ ChildTableName (Date 2021 7 1 0 0 0 0 UTC) = "transaction_partition_y2021_m07_d01".
Proof.
  split; [|split; vm_compute; reflexivity].
  intros t. pose proof (ChildTableName_utc t) as H. pose proof (utcDate_range t) as R.
  destruct (utcDate t) as [[y m] d].
  change (2 ^ 62) with 4611686018427387904 in R.
  split; [exact H|].
  repeat split;
    try (apply decodeInt_appendInt; change (2 ^ 63) with 9223372036854775808; lia);
    try (apply appendInt_width2; lia).
  apply appendInt_width4.
Qed.

End Naming.

(** ** The statement that creates a child table *)

Section ChildTableStatement.

Lemma appendInt_app (b : string) (x width : Z) :
  appendInt b x width = b +:+ appendInt EmptyString x width.
Proof.
  unfold appendInt. destruct (x <? 0); [|reflexivity].
  rewrite !string_app_assoc. reflexivity.
Qed.

Lemma formatNano_app (b : string) (nanosec : Z) :
  formatNano b nanosec = b +:+ formatNano EmptyString nanosec.
Proof.
  unfold formatNano. destruct (trimZeros 9 _).
  - symmetry. apply string_app_nil_r.
  - reflexivity.
Qed.

(** The RFC 3339 form of a timestamp read in UTC: its date, [T], its time
    of day, the fraction of the second and [Z]. *)
Lemma RFC3339Nano_utc (t : Time) :
  let '(year, month, day) := utcDate t in
  let '(hour, min, sec) := utcClock t in
  Time_Format (Time_UTC t) RFC3339Nano
    = appendInt EmptyString year 4 +:+ "-" +:+ appendInt EmptyString month 2
        +:+ "-" +:+ appendInt EmptyString day 2
        +:+ "T" +:+ appendInt EmptyString hour 2 +:+ ":" +:+ appendInt EmptyString min 2
        +:+ ":" +:+ appendInt EmptyString sec 2
        +:+ formatNano EmptyString (nsec t) +:+ "Z".
Proof.
  destruct (utcDate_absDate t) as [yd H]. unfold utcClock.
  unfold Time_Format, RFC3339Nano, fold_left, appendChunk.
  rewrite H. destruct (utcDate t) as [[y m] d].
  destruct (absClock (Time_abs (Time_UTC t))) as [[hh mm] ss].
  cbn [Time_UTC loc nsec zone_offset]. change (0 =? 0) with true. cbv iota.
  rewrite (formatNano_app (appendInt _ _ _)).
  rewrite !(appendInt_app (_ +:+ _)).
  rewrite !string_app_assoc. reflexivity.
Qed.

Lemma absClock_range (abs : Z) :
  0 ≤ abs →
  let '(hour, min, sec) := absClock abs in
  0 ≤ hour < 24 ∧ 0 ≤ min < 60 ∧ 0 ≤ sec < 60
  ∧ abs mod secondsPerDay = hour * 3600 + min * 60 + sec.
Proof.
  intros Habs. unfold absClock, secondsPerDay, secondsPerHour, secondsPerMinute.
  change (24 * (60 * 60)) with 86400. change (60 * 60) with 3600.
  set (s := abs mod 86400).
  assert (Hs : 0 ≤ s < 86400) by (subst s; euclid).
  clearbody s. euclid.
Qed.

Lemma nanoDigits_app (k : nat) (u : Z) (acc : string) :
  nanoDigits k u acc = nanoDigits k u EmptyString +:+ acc.
Proof.
  revert u acc. induction k as [|k IH]; intros u acc; [reflexivity|].
  cbn [nanoDigits].
  rewrite (IH _ (String _ acc)), (IH _ (String _ EmptyString)), string_app_assoc.
  reflexivity.
Qed.

Lemma nanoDigits_length (k : nat) (u : Z) :
  String.length (nanoDigits k u EmptyString) = k.
Proof.
  revert u. induction k as [|k IH]; intros u; [reflexivity|].
  cbn [nanoDigits]. rewrite nanoDigits_app, string_app_length, IH. cbn. lia.
Qed.

Lemma decode_nanoDigits (k : nat) (u : Z) :
  decode (nanoDigits k u EmptyString) 0 = u mod 10 ^ Z.of_nat k.
Proof.
  revert u. induction k as [|k IH]; intros u.
  - cbn. rewrite Z.mod_1_r. reflexivity.
  - cbn [nanoDigits]. rewrite nanoDigits_app, decode_app, IH. cbn [decode].
    rewrite digitValue_digit by euclid.
    rewrite Nat2Z.inj_succ, Z.pow_succ_r by lia.
    rewrite (Z.rem_mul_r u 10 (10 ^ Z.of_nat k)) by lia. lia.
Qed.

Lemma substring_snoc (k : nat) (buf : string) (c : ascii) :
  String.get k buf = Some c →
  String.substring 0 (S k) buf = String.substring 0 k buf +:+ String c EmptyString.
Proof.
  revert buf. induction k as [|k IH]; intros [|c' buf] Hget; try discriminate Hget.
  - cbn in Hget. injection Hget as ->. destruct buf; reflexivity.
  - cbn in Hget. change (String.substring 0 (S (S k)) (String c' buf))
      with (String c' (String.substring 0 (S k) buf)).
    rewrite (IH buf Hget). reflexivity.
Qed.

Lemma substring_all (buf : string) :
  String.substring 0 (String.length buf) buf = buf.
Proof. induction buf as [|c buf IH]; [reflexivity|]. cbn. rewrite IH. reflexivity. Qed.

Lemma substring_length (k : nat) (buf : string) :
  (k ≤ String.length buf)%nat → String.length (String.substring 0 k buf) = k.
Proof.
  revert buf. induction k as [|k IH]; intros [|c buf] Hk; cbn in *; try lia.
  rewrite IH by lia. reflexivity.
Qed.

Lemma trimZeros_le (n : nat) (buf : string) : (trimZeros n buf ≤ n)%nat.
Proof.
  induction n as [|n IH]; [reflexivity|]. cbn [trimZeros].
  destruct (String.get n buf) as [c|]; [|lia].
  destruct c as [[] [] [] [] [] [] [] []]; lia.
Qed.

Lemma zeros_snoc (n : nat) : zeros (S n) = zeros n +:+ "0".
Proof.
  induction n as [|n IH]; [reflexivity|].
  cbn [zeros] in *. rewrite string_app_cons. f_equal. exact IH.
Qed.

(** What the trimming removes are zeros. *)
Lemma trimZeros_pad (n : nat) (buf : string) :
  (n ≤ String.length buf)%nat →
  String.substring 0 (trimZeros n buf) buf +:+ zeros (n - trimZeros n buf)
    = String.substring 0 n buf.
Proof.
  induction n as [|n IH]; intros Hn.
  - cbn. destruct buf; reflexivity.
  - cbn [trimZeros]. destruct (String.get n buf) as [c|] eqn:Hget.
    + destruct (Ascii.ascii_dec c "0") as [->|Hne].
      * pose proof (trimZeros_le n buf) as Hle.
        replace (S n - trimZeros n buf)%nat with (S (n - trimZeros n buf)) by lia.
        rewrite zeros_snoc, <- string_app_assoc, IH by lia.
        symmetry. apply substring_snoc. exact Hget.
      * assert (Hsame : match c with
                        | "0"%char => trimZeros n buf
                        | _ => S n
                        end = S n).
        { destruct c as [[] [] [] [] [] [] [] []]; try reflexivity. congruence. }
        rewrite Hsame, Nat.sub_diag. apply string_app_nil_r.
    + rewrite Nat.sub_diag. apply string_app_nil_r.
Qed.

(** Reading a formatted fraction of a second gives the nanoseconds back. *)
Lemma decodeNano_formatNano (nanosec : Z) :
  0 ≤ nanosec < 1000000000 → decodeNano (formatNano EmptyString nanosec) = nanosec.
Proof.
  intros Hn. unfold formatNano.
  rewrite to_uint64_small by (change (2 ^ 64) with 18446744073709551616; lia).
  set (buf := nanoDigits 9 nanosec EmptyString).
  assert (Hlen : String.length buf = 9%nat) by apply nanoDigits_length.
  assert (Hdec : decode buf 0 = nanosec).
  { subst buf. rewrite decode_nanoDigits.
    change (10 ^ Z.of_nat 9) with 1000000000. apply Z.mod_small. exact Hn. }
  pose proof (substring_all buf) as Hall. rewrite Hlen in Hall.
  pose proof (trimZeros_pad 9 buf) as Hpad. rewrite Hall in Hpad.
  specialize (Hpad ltac:(lia)).
  pose proof (trimZeros_le 9 buf) as Hle.
  destruct (trimZeros 9 buf) as [|n] eqn:Htrim.
  - cbn [decodeNano]. rewrite <- Hdec, <- Hpad.
    change (String.substring 0 0 buf) with EmptyString. cbn [Nat.sub].
    change (EmptyString +:+ zeros 9) with (zeros 9).
    rewrite <- (string_app_nil_r (zeros 9)), decode_zeros. reflexivity.
  - change (EmptyString +:+ "." +:+ String.substring 0 (S n) buf)
      with (String "." (String.substring 0 (S n) buf)).
    cbn [decodeNano]. rewrite substring_length by lia. rewrite Hpad. exact Hdec.
Qed.

Lemma formatNano_inj (n1 n2 : Z) :
  0 ≤ n1 < 1000000000 → 0 ≤ n2 < 1000000000 →
  formatNano EmptyString n1 = formatNano EmptyString n2 → n1 = n2.
Proof.
  intros H1 H2 Heq. apply (f_equal decodeNano) in Heq.
  rewrite !decodeNano_formatNano in Heq by assumption. exact Heq.
Qed.

(** The text of the statement, field by field. *)
Lemma childTableSQL_utc (t : Time) :
  let '(year, month, day) := utcDate t in
  let '(hour, min, sec) := utcClock t in
  childTableSQL t
    = "CREATE TABLE IF NOT EXISTS " +:+ ChildTableName t
        +:+ " PARTITION OF transactions_partitioned FOR VALUES IN ('"
        +:+ appendInt EmptyString year 4 +:+ "-" +:+ appendInt EmptyString month 2
        +:+ "-" +:+ appendInt EmptyString day 2
        +:+ "T" +:+ appendInt EmptyString hour 2 +:+ ":" +:+ appendInt EmptyString min 2
        +:+ ":" +:+ appendInt EmptyString sec 2
        +:+ formatNano EmptyString (nsec t) +:+ "Z');".
Proof.
  pose proof (RFC3339Nano_utc t) as H. unfold childTableSQL.
  destruct (utcDate t) as [[y m] d]. destruct (utcClock t) as [[hh mm] ss].
  rewrite H, !string_app_assoc. reflexivity.
Qed.

Variable drv : Driver.

(** C4 (as amended). The creation of a child table sends exactly one
    statement: a create-if-not-exists of the table named after the UTC
    calendar day of the timestamp, bound to one literal, the timestamp in
    UTC in the RFC 3339 form with nanoseconds (its date, then its time of
    day). Two timestamps of the same UTC calendar day create the same
    child table, and their statements are the same text exactly when
    their time of day in UTC and their nanoseconds are the same too. *)
Theorem CreateNewPartitionChildTable_statement (t : Time) (l : Logic drv) :
  let r := CreateNewPartitionChildTable drv t l in
  (∃ err, calls (snd r) = calls l ++ [CallExec (childTableSQL t) err])
  ∧ (let '(year, month, day) := utcDate t in
     let '(hour, min, sec) := utcClock t in
     childTableSQL t
       = "CREATE TABLE IF NOT EXISTS " +:+ ChildTableName t
           +:+ " PARTITION OF transactions_partitioned FOR VALUES IN ('"
           +:+ appendInt EmptyString year 4 +:+ "-" +:+ appendInt EmptyString month 2
           +:+ "-" +:+ appendInt EmptyString day 2
           +:+ "T" +:+ appendInt EmptyString hour 2 +:+ ":" +:+ appendInt EmptyString min 2
           +:+ ":" +:+ appendInt EmptyString sec 2
           +:+ formatNano EmptyString (nsec t) +:+ "Z');")
  ∧ (∀ t' : Time, utcDate t' = utcDate t →
       ChildTableName t' = ChildTableName t
       ∧ (0 ≤ nsec t < 1000000000 → 0 ≤ nsec t' < 1000000000 →
          (childTableSQL t' = childTableSQL t
           ↔ utcClock t' = utcClock t ∧ nsec t' = nsec t))).
Proof.
  intros r. split; [|split].
  - subst r. destruct (CreateNewPartitionChildTable_calls drv t l) as [err [Hc _]].
    exists err. exact Hc.
  - apply childTableSQL_utc.
  - intros t' Hday. pose proof (ChildTableName_utcDate _ _ Hday) as Hname.
    split; [exact Hname|]. intros Hn Hn'.
    pose proof (childTableSQL_utc t) as Hs. pose proof (childTableSQL_utc t') as Hs'.
    pose proof (absClock_range _ (proj1 (Time_abs_range (Time_UTC t)))) as Hc.
    pose proof (absClock_range _ (proj1 (Time_abs_range (Time_UTC t')))) as Hc'.
    fold (utcClock t) in Hc. fold (utcClock t') in Hc'.
    rewrite Hday, Hname in Hs'. destruct (utcDate t) as [[y m] d].
    destruct (utcClock t) as [[hh mm] ss]. destruct (utcClock t') as [[hh' mm'] ss'].
    rewrite Hs, Hs'. split.
    + intros Heq. do 9 apply String.app_inj in Heq.
      apply string_app_inj_length in Heq; [|rewrite !appendInt_width2; lia].
      destruct Heq as [Hhh Heq]. apply String.app_inj in Heq.
      apply string_app_inj_length in Heq; [|rewrite !appendInt_width2; lia].
      destruct Heq as [Hmm Heq]. apply String.app_inj in Heq.
      apply string_app_inj_length in Heq; [|rewrite !appendInt_width2; lia].
      destruct Heq as [Hss Heq].
      pose proof (f_equal String.length Heq) as Hlen.
      rewrite !string_app_length in Hlen.
      apply string_app_inj_length in Heq; [|lia]. destruct Heq as [Hfrac _].
      apply appendInt_inj in Hhh; try (change (2 ^ 63) with 9223372036854775808; lia).
      apply appendInt_inj in Hmm; try (change (2 ^ 63) with 9223372036854775808; lia).
      apply appendInt_inj in Hss; try (change (2 ^ 63) with 9223372036854775808; lia).
      apply formatNano_inj in Hfrac; try assumption.
      split; congruence.
    + intros [Hclock Hnsec]. injection Hclock as -> -> ->. rewrite Hnsec. reflexivity.
Qed.

End ChildTableStatement.

(** ** Runs on the scripted database *)

Section Runs.

Import mock.

(** Go's calendar on a few dates: the Unix time of a date, a leap day, a
    day past the end of February, and the RFC 3339 form with and without
    a fraction of a second and in a zone east of UTC. *)
Example Date_unixSec :
  unixSec t_2021_06_30_end = 1625097599 ∧ unixSec t_2021_07_01 = 1625097600
  ∧ unixSec t_2021_07_01_plus7 = 1625097599.
Proof. vm_compute. repeat split. Qed.

Example utcDate_leap_day :
  utcDate (Date 2020 2 29 12 0 0 0 UTC) = (2020, 2, 29)
  ∧ utcDate (Date 2021 2 29 12 0 0 0 UTC) = (2021, 3, 1)
  ∧ utcDate (Date 1900 3 1 0 0 0 0 UTC) = (1900, 3, 1)
  ∧ utcDate Time_zero = (1, 1, 1).
Proof. vm_compute. repeat split. Qed.

Example Format_RFC3339Nano :
  Time_Format t_2021_06_30_end RFC3339Nano = "2021-06-30T23:59:59Z"
  ∧ Time_Format (mkTime 1625097599 120000 UTC) RFC3339Nano
    = "2021-06-30T23:59:59.00012Z"
  ∧ Time_Format t_2021_07_01_plus7 RFC3339Nano = "2021-07-01T06:59:59+07:00".
Proof. vm_compute. repeat split. Qed.

(** C1 as the specification states it does not hold: with no matching
    row both fetches return the zero-valued record and a nil error. *)
Lemma fetch_miss_returns_no_error :
  db_Query driver [] sqlFetchTransactionPartitioned
    [ArgString "nope"; ArgString "1"; ArgTime t_2021_06_30]
    = ([], inl (mkRows [] None))
  ∧ fst (FetchOneTransactionPartitioned driver "nope" "1" t_2021_06_30
           (NewLogic (drv := driver) []))
    = (Transaction_zero, None)
  ∧ fst (FetchOneTransactionWithoutPartition driver "nope" "1" t_2021_06_30
           (NewLogic (drv := driver) []))
    = (Transaction_zero, None).
Proof. repeat split. Qed.

(** C4 as the specification states it does not hold: the first and the
    last second of 2021-06-30 are on the same UTC calendar day and get the
    same child table, yet the statements differ, each bound to its own
    timestamp. *)
Lemma childTableSQL_differs_within_a_day :
  utcDate t_2021_06_30 = utcDate t_2021_06_30_end
  ∧ childTableSQL t_2021_06_30
    = "CREATE TABLE IF NOT EXISTS transaction_partition_y2021_m06_d30 PARTITION OF transactions_partitioned FOR VALUES IN ('2021-06-30T00:00:00Z');"
  ∧ childTableSQL t_2021_06_30_end
    = "CREATE TABLE IF NOT EXISTS transaction_partition_y2021_m06_d30 PARTITION OF transactions_partitioned FOR VALUES IN ('2021-06-30T23:59:59Z');"
  ∧ childTableSQL t_2021_06_30 ≠ childTableSQL t_2021_06_30_end.
Proof.
  split; [vm_compute; reflexivity|]. split; [vm_compute; reflexivity|].
  split; [vm_compute; reflexivity|]. vm_compute. discriminate.
Qed.

(** A fetch of a record that was never inserted, on a database without
    rows. *)
Lemma fetch_no_rows_returns_zero_record_witness :
  db_Query driver [] sqlFetchTransactionPartitioned
    [ArgString "nope"; ArgString "1"; ArgTime t_2021_06_30]
    = ([], inl (mkRows [] None))
  ∧ rows_next (mkRows ([] : list row) None) = []
  ∧ fst (FetchOneTransactionPartitioned driver "nope" "1" t_2021_06_30
           (NewLogic (drv := driver) []))
    = (Transaction_zero, None).
Proof.
  split; [reflexivity|]. split; [reflexivity|].
  apply (fetch_no_rows_returns_zero_record driver true "nope" "1" t_2021_06_30
           (NewLogic (drv := driver) []) [] (mkRows [] None)); reflexivity.
Defined.

(** C7 as the specification states it does not hold for every
    timestamp: the last second of 9999 one hour west of UTC falls in the
    UTC year 10000, written with five digits, and the first second of year
    0 one hour east of UTC falls in the UTC year -1, written with a minus
    sign; neither name has the 35 characters of the form with a year of
    four digits. *)
Lemma ChildTableName_year_not_four_digits :
  utcDate (Date 9999 12 31 23 59 59 0 (FixedZone "-01:00" (- 3600))) = (10000, 1, 1)
  ∧ ChildTableName (Date 9999 12 31 23 59 59 0 (FixedZone "-01:00" (- 3600)))
    = "transaction_partition_y10000_m01_d01"
  ∧ utcDate (Date 0 1 1 0 0 0 0 (FixedZone "+01:00" 3600)) = (-1, 12, 31)
  ∧ ChildTableName (Date 0 1 1 0 0 0 0 (FixedZone "+01:00" 3600))
    = "transaction_partition_y-0001_m12_d31"
  ∧ String.length (ChildTableName (Date 9999 12 31 23 59 59 0 (FixedZone "-01:00" (- 3600))))
    ≠ 35%nat
  ∧ String.length (ChildTableName (Date 0 1 1 0 0 0 0 (FixedZone "+01:00" 3600)))
    ≠ 35%nat.
Proof.
  split; [vm_compute; reflexivity|]. split; [vm_compute; reflexivity|].
  split; [vm_compute; reflexivity|]. split; [vm_compute; reflexivity|].
  split; vm_compute; discriminate.
Qed.

(** A first cached insert on an empty cache, then one for the end of the
    same day on the cache it leaves. *)
Lemma cached_insert_flow_witness :
  let l := NewLogic (drv := driver) [] in
  let l1 := snd (InsertTransactionPartitionedDynamicCached driver trxA l) in
  childTableMap l !! cacheKey (ChildTableName (TrxDate trxA)) ≠ Some (any_bool true)
  ∧ childTableMap l1 = <[cacheKey (ChildTableName (TrxDate trxA)) := any_bool true]>
                         (childTableMap l)
  ∧ childTableMap l1 !! cacheKey (ChildTableName (TrxDate trxB)) = Some (any_bool true)
  ∧ InsertTransactionPartitionedDynamicCached driver trxB l1
    = InsertTransactionPartitioned driver trxB l1.
Proof.
  intros l l1.
  assert (H1 : childTableMap l !! cacheKey (ChildTableName (TrxDate trxA))
               ≠ Some (any_bool true)).
  { cbn [l NewLogic childTableMap]. rewrite lookup_empty. discriminate. }
  assert (H2 : childTableMap l1 !! cacheKey (ChildTableName (TrxDate trxB))
               = Some (any_bool true)) by (vm_compute; reflexivity).
  split; [exact H1|].
  pose proof (proj2 (cached_insert_flow driver trxA l) H1) as Hmiss.
  change (CreateNewPartitionChildTable driver (TrxDate trxA) l)
    with (@None error,
          mkLogic (drv := driver) [] ∅ [CallExec (childTableSQL (TrxDate trxA)) None])
    in Hmiss.
  destruct Hmiss as (_ & _ & Hm & _).
  split; [exact Hm|]. split; [exact H2|].
  exact (proj1 (proj1 (cached_insert_flow driver trxB l1) H2)).
Defined.

(** A cached insert on a database that refuses to create the child table. *)
Lemma cached_creation_failure_witness :
  let refused := DriverError "pq: permission denied for schema public" in
  let l := NewLogic (drv := driver) [ReplyExec (Some refused)] in
  let sql := childTableSQL (TrxDate trxA) in
  let e := ErrorfWrap "create transaction partitioned child table error: %w: %q"
             refused [sql] in
  let l1 := mkLogic (drv := driver) [] ∅ [CallExec sql (Some refused)] in
  let key := cacheKey (ChildTableName (TrxDate trxA)) in
  knownExisting (childTableMap l !! key) = false
  ∧ CreateNewPartitionChildTable driver (TrxDate trxA) l = (Some e, l1)
  ∧ InsertTransactionPartitionedDynamicCached driver trxA l = ((trxA, Some e), l1)
  ∧ childTableMap l1 = childTableMap l.
Proof.
  intros refused l sql e l1 key.
  assert (H1 : knownExisting (childTableMap l !! key) = false)
    by (vm_compute; reflexivity).
  assert (H2 : CreateNewPartitionChildTable driver (TrxDate trxA) l = (Some e, l1))
    by (vm_compute; reflexivity).
  split; [exact H1|]. split; [exact H2|].
  destruct (cached_creation_failure driver trxA l e l1 H1 H2) as (Hr & Hm & _).
  split; [exact Hr | exact Hm].
Defined.

(** The cache after one cached insert, and after a second one. *)
Lemma cache_invariant_witness :
  let l := run_ops [OpInsertTransactionPartitionedDynamicCached trxA]
             (NewLogic (drv := driver) []) in
  cache_ok l ∧ cache_ok (run_op (OpInsertTransactionPartitionedDynamicCached trxB) l).
Proof.
  intros l.
  assert (H : cache_ok l) by apply (proj1 (cache_invariant driver)).
  split; [exact H|].
  apply (proj1 (proj2 (cache_invariant driver))). exact H.
Defined.

(** Two cached inserts at both ends of 2021-06-30, with other calls in
    between: the second sends no schema statement. *)
Lemma cached_amortization_witness :
  let l := NewLogic (drv := driver) [] in
  let l1 := snd (InsertTransactionPartitionedDynamicCached driver trxA l) in
  let ops := [OpCreateLogTable; OpInsertTransactionPartitionedDynamic trxA] in
  let l2 := run_ops ops l1 in
  let r := InsertTransactionPartitionedDynamicCached driver trxB l2 in
  InsertTransactionPartitionedDynamicCached driver trxA l = ((trxA, None), l1)
  ∧ utcDate (TrxDate trxB) = utcDate (TrxDate trxA)
  ∧ List.filter is_Exec (calls (snd r)) = List.filter is_Exec (calls l2).
Proof.
  intros l l1 ops l2 r.
  assert (H1 : InsertTransactionPartitionedDynamicCached driver trxA l
               = ((trxA, None), l1)) by (vm_compute; reflexivity).
  assert (H2 : utcDate (TrxDate trxB) = utcDate (TrxDate trxA))
    by (vm_compute; reflexivity).
  split; [exact H1|]. split; [exact H2|].
  exact (proj1 (cached_amortization driver trxA l trxA l1 ops trxB H1 H2)).
Defined.

(** A cached insert for a day that an earlier cached insert has marked. *)
Lemma cached_hit_is_partitioned_insert_witness :
  let l := snd (InsertTransactionPartitionedDynamicCached driver trxA
                  (NewLogic (drv := driver) [])) in
  childTableMap l !! cacheKey (ChildTableName (TrxDate trxB)) = Some (any_bool true)
  ∧ InsertTransactionPartitionedDynamicCached driver trxB l
    = InsertTransactionPartitioned driver trxB l.
Proof.
  intros l.
  assert (H : childTableMap l !! cacheKey (ChildTableName (TrxDate trxB))
              = Some (any_bool true)) by (vm_compute; reflexivity).
  split; [exact H|].
  exact (proj1 (cached_hit_is_partitioned_insert driver trxB l H)).
Defined.

(** The first and the last second of 2021-06-30. *)
Lemma ChildTableName_same_day_iff_witness :
  afterAbsoluteZero t_2021_06_30 ∧ afterAbsoluteZero t_2021_06_30_end
  ∧ unixDay t_2021_06_30 = unixDay t_2021_06_30_end
  ∧ ChildTableName t_2021_06_30 = ChildTableName t_2021_06_30_end
  ∧ utcDate t_2021_06_30 = utcDate t_2021_06_30_end.
Proof.
  assert (H1 : afterAbsoluteZero t_2021_06_30) by (vm_compute; split; [discriminate | reflexivity]).
  assert (H2 : afterAbsoluteZero t_2021_06_30_end) by (vm_compute; split; [discriminate | reflexivity]).
  assert (H3 : unixDay t_2021_06_30 = unixDay t_2021_06_30_end)
    by (vm_compute; reflexivity).
  assert (H4 : ChildTableName t_2021_06_30 = ChildTableName t_2021_06_30_end)
    by (apply (proj2 ChildTableName_same_day_iff _ _ H1 H2); exact H3).
  split; [exact H1|]. split; [exact H2|]. split; [exact H3|]. split; [exact H4|].
  apply (proj1 ChildTableName_same_day_iff). exact H4.
Defined.

(** A timestamp given in a zone seven hours east of UTC is named after
    its day in UTC. *)
Lemma ChildTableName_format_witness :
  ChildTableName t_2021_07_01_plus7 = "transaction_partition_y2021_m06_d30"
  ∧ String.length (appendInt EmptyString 2021 4) = 4%nat.
Proof.
  pose proof (proj1 ChildTableName_format t_2021_07_01_plus7) as H.
  change (utcDate t_2021_07_01_plus7) with (2021, 6, 30) in H.
  destruct H as (Hname & _ & _ & _ & _ & _ & Hlen).
  split; [exact Hname | apply Hlen; lia].
Defined.

(** The statements for the first and the last second of 2021-06-30 are
    the same text only if the two times of day are the same. *)
Lemma CreateNewPartitionChildTable_statement_witness :
  utcDate t_2021_06_30_end = utcDate t_2021_06_30
  ∧ ChildTableName t_2021_06_30_end = ChildTableName t_2021_06_30
  ∧ (childTableSQL t_2021_06_30_end = childTableSQL t_2021_06_30
     ↔ utcClock t_2021_06_30_end = utcClock t_2021_06_30
       ∧ nsec t_2021_06_30_end = nsec t_2021_06_30).
Proof.
  assert (H : utcDate t_2021_06_30_end = utcDate t_2021_06_30)
    by (vm_compute; reflexivity).
  split; [exact H|].
  destruct (CreateNewPartitionChildTable_statement driver t_2021_06_30
              (NewLogic (drv := driver) [])) as (_ & _ & Hday).
  destruct (Hday t_2021_06_30_end H) as [Hname Hsql].
  split; [exact Hname|]. apply Hsql; vm_compute; (split; [discriminate | reflexivity]).
Defined.

End Runs.

(** ** Further properties of the methods *)

Section MoreCoreProps.

Variable drv : Driver.
Implicit Types (l : Logic drv) (trx : Transaction) (t : Time).

(** The three ways a cached insert can go, with what each does to the
    database, the cache and the log. *)
Lemma Cached_outcome trx l :
  let key := cacheKey (ChildTableName (TrxDate trx)) in
  let sql := childTableSQL (TrxDate trx) in
  let r := InsertTransactionPartitionedDynamicCached drv trx l in
  (knownExisting (childTableMap l !! key) = true
   ∧ r = InsertTransactionPartitioned drv trx l
   ∧ childTableMap (snd r) = childTableMap l
   ∧ ∃ qerr, calls (snd r)
              = calls l ++ [CallQuery sqlInsertTransactionPartitioned (insertArgs trx) qerr])
  ∨ (knownExisting (childTableMap l !! key) = false
     ∧ ∃ e, db_Exec drv (db l) sql = (db (snd r), Some e)
            ∧ fst r = (trx, Some (ErrorfWrap
                 "create transaction partitioned child table error: %w: %q" e [sql]))
            ∧ childTableMap (snd r) = childTableMap l
            ∧ calls (snd r) = calls l ++ [CallExec sql (Some e)])
  ∨ (knownExisting (childTableMap l !! key) = false
     ∧ ∃ d, db_Exec drv (db l) sql = (d, None)
            ∧ r = InsertTransactionPartitioned drv trx
                    (mkLogic d (<[key := any_bool true]> (childTableMap l))
                       (calls l ++ [CallExec sql None]))
            ∧ childTableMap (snd r) = <[key := any_bool true]> (childTableMap l)
            ∧ ∃ qerr, calls (snd r)
                       = calls l ++ [CallExec sql None;
                                     CallQuery sqlInsertTransactionPartitioned
                                       (insertArgs trx) qerr]).
Proof.
  intros key sql r. subst r.
  destruct (knownExisting (childTableMap l !! key)) eqn:Hk.
  - left. rewrite Cached_hit by exact Hk. split; [reflexivity|].
    split; [reflexivity|]. split.
    + apply insertWith_childTableMap.
    + apply insertWith_calls.
  - right. rewrite Cached_miss by exact Hk. fold key.
    rewrite CreateNewPartitionChildTable_run, Exec_run. fold sql. cbn [fst snd].
    destruct (db_Exec drv (db l) sql) as [d [e|]] eqn:Hexec;
      cbn [fst snd db childTableMap calls].
    + left. split; [reflexivity|]. exists e. repeat split; reflexivity.
    + right. split; [reflexivity|]. exists d. split; [reflexivity|].
      split; [reflexivity|].
      set (l2 := mkLogic d _ _). unfold InsertTransactionPartitioned. split.
      * rewrite insertWith_childTableMap. reflexivity.
      * destruct (insertWith_calls drv sqlInsertTransactionPartitioned trx l2) as [qe Hq].
        exists qe. rewrite Hq. subst l2. cbn [calls]. rewrite <- app_assoc. reflexivity.
Qed.

(** An insert does not look at the cache: with another cache the record,
    the error, the database and the log come out the same. *)
Lemma insertWith_cache_irrelevant sql trx (d : DB drv) (c1 c2 : gmap string any)
    (cs : list Call) :
  let r1 := insertWith drv sql trx (mkLogic d c1 cs) in
  let r2 := insertWith drv sql trx (mkLogic d c2 cs) in
  fst r1 = fst r2 ∧ db (snd r1) = db (snd r2) ∧ calls (snd r1) = calls (snd r2).
Proof.
  unfold insertWith, bind, ret, Query. cbn [db childTableMap calls].
  destruct (db_Query drv d sql (insertArgs trx)) as [d' [res|e]]; [|auto].
  destruct (scanRows drv _ _ _) as [trx' [e|]]; auto.
Qed.


(** X4. The check of a child table returns nil exactly when the query
    succeeds, every row scans, and the name scanned last is the name asked
    for. With no row at all the name scanned is the empty string, so the
    check fails for every name but the empty one. The check sends one
    query and leaves the cache alone. *)
Theorem check_outcome (tableName : string) l :
  let r := CheckPartitionChildTable drv tableName l in
  let sql := "SELECT to_regclass('" +:+ tableName +:+ "');" in
  childTableMap (snd r) = childTableMap l
  ∧ (∃ qerr, calls (snd r) = calls l ++ [CallQuery sql [] qerr])
  ∧ (fst r = None
     ↔ ∃ res, snd (db_Query drv (db l) sql []) = inl res
              ∧ scanRows drv (scan_string drv) (rows_next res) EmptyString
                = (tableName, None))
  ∧ (∀ res, snd (db_Query drv (db l) sql []) = inl res → rows_next res = [] →
       fst r = if bool_decide (tableName = EmptyString) then None
               else Some (Errorf "not found table %s, returning %s from query"
                            [tableName; EmptyString])).
Proof.
  intros r sql. subst r. split; [apply CheckPartitionChildTable_childTableMap|].
  unfold CheckPartitionChildTable, bind, ret, Query. fold sql.
  destruct (db_Query drv (db l) sql []) as [d [res|e]]; cbn [fst snd calls].
  - split; [eexists; destruct (scanRows drv _ _ _) as [n [e|]];
              [|case_bool_decide]; reflexivity|].
    split.
    + destruct (scanRows drv _ _ _) as [n [e|]] eqn:Hscan; cbn [fst].
      * split; [discriminate|]. intros [res' [Hres Hs]]. injection Hres as <-.
        rewrite Hscan in Hs. discriminate Hs.
      * case_bool_decide as Hn; cbn [fst].
        -- split; [discriminate|]. intros [res' [Hres Hs]]. injection Hres as <-.
           rewrite Hscan in Hs. congruence.
        -- split; [|reflexivity]. intros _. exists res. split; [reflexivity|].
           rewrite Hscan. f_equal. destruct (decide (n = tableName)); [assumption|].
           contradiction.
    + intros res' Hres Hrows. injection Hres as <-. rewrite Hrows. cbn [scanRows].
      destruct (decide (tableName = EmptyString)) as [->|Hne].
      * rewrite bool_decide_eq_false_2 by (intros H; apply H; reflexivity).
        rewrite bool_decide_eq_true_2 by reflexivity. reflexivity.
      * rewrite bool_decide_eq_true_2 by congruence.
        rewrite bool_decide_eq_false_2 by exact Hne. reflexivity.
  - split; [eexists; reflexivity|]. split.
    + split; [discriminate|]. intros [res [Hres _]]. discriminate Hres.
    + intros res Hres. discriminate Hres.
Qed.

(** X5. On a cache miss the cached insert does to the database what the
    dynamic insert does: the same record and error come back, the database
    is left in the same state and the same statements are sent. Only the
    cache differs: the dynamic insert never touches it, the cached insert
    marks the key of the day as soon as the creation has succeeded. *)
Theorem cached_miss_matches_dynamic trx l :
  let key := cacheKey (ChildTableName (TrxDate trx)) in
  knownExisting (childTableMap l !! key) = false →
  let rc := InsertTransactionPartitionedDynamicCached drv trx l in
  let rd := InsertTransactionPartitionedDynamic drv trx l in
  fst rc = fst rd ∧ db (snd rc) = db (snd rd) ∧ calls (snd rc) = calls (snd rd)
  ∧ childTableMap (snd rd) = childTableMap l
  ∧ childTableMap (snd rc)
    = match fst (CreateNewPartitionChildTable drv (TrxDate trx) l) with
      | Some _ => childTableMap l
      | None => <[key := any_bool true]> (childTableMap l)
      end.
Proof.
  intros key Hk rc rd. subst rc rd. rewrite Cached_miss by exact Hk. fold key.
  unfold InsertTransactionPartitionedDynamic, bind, ret.
  pose proof (CreateNewPartitionChildTable_childTableMap drv (TrxDate trx) l) as Hm.
  destruct (CreateNewPartitionChildTable drv (TrxDate trx) l) as [[e|] l1];
    cbn [fst snd] in *.
  - repeat split; try reflexivity; exact Hm.
  - unfold InsertTransactionPartitioned.
    destruct l1 as [d c cs]. cbn [db childTableMap calls] in *.
    pose proof (insertWith_cache_irrelevant sqlInsertTransactionPartitioned trx d
                  (<[key := any_bool true]> c) c cs) as (H1 & H2 & H3).
    split; [exact H1|]. split; [exact H2|]. split; [exact H3|].
    rewrite !insertWith_childTableMap. cbn [childTableMap]. rewrite Hm.
    split; reflexivity.
Qed.

(** X6. The mark depends on the creation, not on the insert: when the
    creation statement succeeds on a miss, the key of the day is marked
    after the call whatever the insert returns, and the next cached insert
    for any timestamp of the same UTC day is the partitioned insert. *)
Theorem cached_marks_before_insert trx l (d : DB drv) trx2 :
  let key := cacheKey (ChildTableName (TrxDate trx)) in
  knownExisting (childTableMap l !! key) = false →
  db_Exec drv (db l) (childTableSQL (TrxDate trx)) = (d, None) →
  utcDate (TrxDate trx2) = utcDate (TrxDate trx) →
  let l1 := snd (InsertTransactionPartitionedDynamicCached drv trx l) in
  childTableMap l1 !! key = Some (any_bool true)
  ∧ InsertTransactionPartitionedDynamicCached drv trx2 l1
    = InsertTransactionPartitioned drv trx2 l1.
Proof.
  intros key Hk Hexec Hday l1.
  assert (Hmark : childTableMap l1 !! key = Some (any_bool true)).
  { subst l1. destruct (Cached_outcome trx l) as [(Hk' & _) | [(_ & e & He & _) | H]].
    - fold key in Hk'. congruence.
    - rewrite Hexec in He. discriminate He.
    - destruct H as (_ & d' & _ & _ & Hm & _). fold key in Hm.
      rewrite Hm. apply lookup_insert_eq. }
  split; [exact Hmark|]. apply Cached_hit. apply knownExisting_true.
  rewrite (ChildTableName_utcDate _ _ Hday). exact Hmark.
Qed.

(** Equal names belong to the same UTC calendar day, and so do equal keys
    of the cache. *)
Lemma ChildTableName_inj (t1 t2 : Time) :
  ChildTableName t1 = ChildTableName t2 → utcDate t1 = utcDate t2.
Proof.
  intros Heq.
  pose proof (ChildTableName_utc t1) as H1. pose proof (ChildTableName_utc t2) as H2.
  pose proof (utcDate_range t1) as R1. pose proof (utcDate_range t2) as R2.
  destruct (utcDate t1) as [[y1 m1] d1]. destruct (utcDate t2) as [[y2 m2] d2].
  rewrite H1, H2 in Heq.
  apply name_fields_inj in Heq; try (apply appendInt_width2; lia).
  destruct Heq as (Hy & Hm & Hd).
  change (2 ^ 62) with 4611686018427387904 in *.
  apply appendInt_inj in Hy; try (change (2 ^ 63) with 9223372036854775808; lia).
  apply appendInt_inj in Hm; try (change (2 ^ 63) with 9223372036854775808; lia).
  apply appendInt_inj in Hd; try (change (2 ^ 63) with 9223372036854775808; lia).
  congruence.
Qed.

Lemma cacheKey_day (t1 t2 : Time) :
  cacheKey (ChildTableName t1) = cacheKey (ChildTableName t2) ↔ utcDate t1 = utcDate t2.
Proof.
  split.
  - intros Heq. apply String.app_inj in Heq. apply ChildTableName_inj. exact Heq.
  - intros Heq. rewrite (ChildTableName_utcDate _ _ Heq). reflexivity.
Qed.

(** X7. In every state reached from [NewLogic], a hit of the cache for a
    record means that the creation statement of the child table of the
    record's UTC day, issued for some timestamp of that day, has come back
    without error: a cached insert skips the creation only for a day
    whose table was created through this [Logic]. *)
Theorem cache_hit_means_created (d : DB drv) (ops : list Op) trx :
  let l := run_ops ops (NewLogic d) in
  knownExisting (childTableMap l !! cacheKey (ChildTableName (TrxDate trx))) = true →
  ∃ t, utcDate t = utcDate (TrxDate trx)
       ∧ ChildTableName t = ChildTableName (TrxDate trx)
       ∧ CallExec (childTableSQL t) None ∈ calls l.
Proof.
  intros l Hk. apply knownExisting_true in Hk.
  assert (Hok : cache_ok l).
  { apply run_ops_cache_ok. intros key v Hlook. cbn in Hlook.
    rewrite lookup_empty in Hlook. discriminate. }
  destruct (Hok _ _ Hk) as [_ [t [Hkey Hin]]]. exists t.
  pose proof (proj1 (cacheKey_day _ _) Hkey) as Hday.
  split; [symmetry; exact Hday|]. split; [|exact Hin].
  apply ChildTableName_utcDate. symmetry. exact Hday.
Qed.

(** What the log and the cache of a served history look like, for the
    timestamps [ts] whose creation succeeded, oldest first. *)
Lemma served_step (l0 l : Logic drv) (ts : list Time) (o : Op) :
  servedOp o = true →
  List.filter succeededExec (calls l)
    = List.filter succeededExec (calls l0)
        ++ ((λ t, CallExec (childTableSQL t) None) <$> ts) →
  NoDup ((λ t, cacheKey (ChildTableName t)) <$> ts) →
  (∀ key, childTableMap l !! key = Some (any_bool true)
          ↔ key ∈ (λ t, cacheKey (ChildTableName t)) <$> ts) →
  (∀ key v, childTableMap l !! key = Some v → v = any_bool true) →
  size (childTableMap l) = length ts →
  ∃ ts',
    List.filter succeededExec (calls (run_op o l))
      = List.filter succeededExec (calls l0)
          ++ ((λ t, CallExec (childTableSQL t) None) <$> ts')
    ∧ NoDup ((λ t, cacheKey (ChildTableName t)) <$> ts')
    ∧ (∀ key, childTableMap (run_op o l) !! key = Some (any_bool true)
              ↔ key ∈ (λ t, cacheKey (ChildTableName t)) <$> ts')
    ∧ (∀ key v, childTableMap (run_op o l) !! key = Some v → v = any_bool true)
    ∧ size (childTableMap (run_op o l)) = length ts'.
Proof.
  intros Hserved Hlog Hnodup Hkeys Htrue Hsize.
  assert (Hquery : ∀ l' sql args qerr,
            childTableMap l' = childTableMap l →
            calls l' = calls l ++ [CallQuery sql args qerr] →
            ∃ ts',
              List.filter succeededExec (calls l')
                = List.filter succeededExec (calls l0)
                    ++ ((λ t, CallExec (childTableSQL t) None) <$> ts')
              ∧ NoDup ((λ t, cacheKey (ChildTableName t)) <$> ts')
              ∧ (∀ key, childTableMap l' !! key = Some (any_bool true)
                        ↔ key ∈ (λ t, cacheKey (ChildTableName t)) <$> ts')
              ∧ (∀ key v, childTableMap l' !! key = Some v → v = any_bool true)
              ∧ size (childTableMap l') = length ts').
  { intros l' sql args qerr Hm Hc. exists ts. rewrite Hm, Hc, List.filter_app.
    cbn [List.filter succeededExec]. rewrite app_nil_r. auto. }
  destruct o; try discriminate Hserved; cbn [run_op].
  - destruct (insertWith_calls drv sqlInsertTransaction trx l) as [qe Hq].
    eapply Hquery; [apply insertWith_childTableMap | exact Hq].
  - destruct (Cached_outcome trx l) as [H | [H | H]].
    + destruct H as (_ & _ & Hm & qe & Hq). eapply Hquery; eassumption.
    + destruct H as (_ & e & _ & _ & Hm & Hc). exists ts.
      rewrite Hm, Hc, List.filter_app. cbn [List.filter succeededExec].
      rewrite app_nil_r. auto.
    + destruct H as (Hk & d & _ & _ & Hm & qe & Hc).
      set (key := cacheKey (ChildTableName (TrxDate trx))) in *.
      assert (Habsent : childTableMap l !! key = None).
      { destruct (childTableMap l !! key) as [v|] eqn:Hlook; [|reflexivity].
        rewrite (Htrue _ _ Hlook) in Hk. discriminate Hk. }
      exists (ts ++ [TrxDate trx]). rewrite Hm, Hc, List.filter_app.
      cbn [List.filter succeededExec]. rewrite Hlog, !fmap_app, <- app_assoc.
      split; [reflexivity|]. split.
      { apply NoDup_app. split; [exact Hnodup|]. split.
        - intros k Hin Hin'. apply list_elem_of_singleton in Hin'. subst k.
          apply Hkeys in Hin. fold key in Hin. congruence.
        - apply NoDup_singleton. }
      split.
      { intros k. cbn [fmap list_fmap]. rewrite elem_of_app, list_elem_of_singleton.
        fold key.
        destruct (decide (key = k)) as [<-|Hne].
        - rewrite lookup_insert_eq. split; auto.
        - rewrite lookup_insert_ne by exact Hne. rewrite Hkeys. split; [auto|].
          intros [H|H]; [exact H | congruence]. }
      split.
      { intros k v. destruct (decide (key = k)) as [<-|Hne].
        - rewrite lookup_insert_eq. congruence.
        - rewrite lookup_insert_ne by exact Hne. apply Htrue. }
      rewrite map_size_insert_None by exact Habsent.
      rewrite length_app, Hsize. cbn. lia.
  - destruct (fetchWith_calls drv sqlFetchTransaction id userID date l) as [qe Hq].
    eapply Hquery; [apply fetchWith_childTableMap | exact Hq].
  - destruct (fetchWith_calls drv sqlFetchTransactionPartitioned id userID date l)
      as [qe Hq].
    eapply Hquery; [apply fetchWith_childTableMap | exact Hq].
Qed.

(** A list without two elements of the same image under [f] has no two
    elements of the same image under a function that [f] factors through. *)
Lemma NoDup_fmap_factor {A B C : Type} (f : A → B) (g : A → C) (xs : list A) :
  (∀ x y, g x = g y → f x = f y) → NoDup (f <$> xs) → NoDup (g <$> xs).
Proof.
  intros Hfg. induction xs as [|x xs IH]; intros Hnd; [constructor|].
  cbn in *. apply NoDup_cons in Hnd. destruct Hnd as [Hnotin Hnd].
  apply NoDup_cons. split; [|apply IH; exact Hnd].
  intros Hin. apply Hnotin. apply list_elem_of_fmap in Hin.
  destruct Hin as [y [Heq Hy]]. apply list_elem_of_fmap. exists y.
  split; [apply Hfg; exact Heq | exact Hy].
Qed.

(** X8. Served histories create each day's table once. Start from a
    [Logic] with an empty cache and run any sequence of the methods that
    the routes reach (cached inserts, inserts without partition, fetches).
    Then the statements that succeeded with [Exec] since the start are the
    creation statements of a list of timestamps, no two on the same UTC
    calendar day; the keys of the cache are exactly the keys of these
    timestamps, and there are as many entries as such statements. *)
Theorem served_history_creates_each_day_once (l0 : Logic drv) (ops : list Op) :
  childTableMap l0 = ∅ →
  forallb servedOp ops = true →
  let l := run_ops ops l0 in
  ∃ ts : list Time,
    List.filter succeededExec (calls l)
      = List.filter succeededExec (calls l0)
          ++ ((λ t, CallExec (childTableSQL t) None) <$> ts)
    ∧ NoDup (utcDate <$> ts)
    ∧ (∀ key, is_Some (childTableMap l !! key)
              ↔ key ∈ (λ t, cacheKey (ChildTableName t)) <$> ts)
    ∧ size (childTableMap l) = length ts.
Proof.
  intros Hempty Hserved l. subst l.
  assert (Hinv : ∃ ts,
            List.filter succeededExec (calls (run_ops ops l0))
              = List.filter succeededExec (calls l0)
                  ++ ((λ t, CallExec (childTableSQL t) None) <$> ts)
            ∧ NoDup ((λ t, cacheKey (ChildTableName t)) <$> ts)
            ∧ (∀ key, childTableMap (run_ops ops l0) !! key = Some (any_bool true)
                      ↔ key ∈ (λ t, cacheKey (ChildTableName t)) <$> ts)
            ∧ (∀ key v, childTableMap (run_ops ops l0) !! key = Some v
                        → v = any_bool true)
            ∧ size (childTableMap (run_ops ops l0)) = length ts).
  { induction ops as [|o ops IH] using rev_ind.
    - exists []. cbn. rewrite app_nil_r, Hempty. split; [reflexivity|].
      split; [constructor|]. split.
      + intros key. rewrite lookup_empty. split; [discriminate|].
        intros H. apply elem_of_nil in H. contradiction.
      + split; [|apply map_size_empty]. intros key v. rewrite lookup_empty.
        discriminate.
    - rewrite forallb_app in Hserved. apply andb_prop in Hserved.
      destruct Hserved as [Hops Ho]. cbn in Ho. rewrite andb_true_r in Ho.
      destruct (IH Hops) as (ts & H1 & H2 & H3 & H4 & H5).
      rewrite run_ops_snoc. eapply served_step; eassumption. }
  destruct Hinv as (ts & H1 & H2 & H3 & H4 & H5). exists ts.
  split; [exact H1|]. split.
  { eapply NoDup_fmap_factor; [|exact H2]. intros x y Heq. cbn.
    apply cacheKey_day. exact Heq. }
  split; [|exact H5]. intros key. rewrite <- H3. split.
  - intros [v Hv]. rewrite Hv. f_equal. eapply H4. exact Hv.
  - intros Hv. rewrite Hv. eauto.
Qed.




End MoreCoreProps.

(** ** The characters of the name and of the bound *)

Section Characters.

Lemma string_forallb_app (p : ascii → bool) (s1 s2 : string) :
  string_forallb p (s1 +:+ s2) = string_forallb p s1 && string_forallb p s2.
Proof.
  induction s1 as [|c s1 IH]; [reflexivity|].
  rewrite string_app_cons. cbn [string_forallb]. rewrite IH, andb_assoc. reflexivity.
Qed.

Lemma isDigit_digit (u : Z) : 0 ≤ u < 10 → isDigit (digit u) = true.
Proof.
  intros Hu.
  apply (forall_below 10 (fun u => isDigit (digit u))); [vm_compute; reflexivity | lia].
Qed.

Lemma utoa_digits (fuel : nat) (u : Z) (acc : string) :
  0 ≤ u → string_forallb isDigit acc = true →
  string_forallb isDigit (utoa fuel u acc) = true.
Proof.
  revert u acc. induction fuel as [|fuel IH]; intros u acc Hu Hacc; [exact Hacc|].
  cbn [utoa]. destruct (Z.geb_spec u 10).
  - apply IH; [euclid|]. cbn [string_forallb]. rewrite isDigit_digit by euclid.
    exact Hacc.
  - cbn [string_forallb]. rewrite isDigit_digit by lia. exact Hacc.
Qed.

Lemma zeros_digits (n : nat) : string_forallb isDigit (zeros n) = true.
Proof. induction n as [|n IH]; [reflexivity|]. cbn. exact IH. Qed.

(** A number that is not negative is formatted with digits only; a
    negative one starts with the minus sign, followed by digits. *)
Lemma appendInt_chars (x width : Z) :
  - 2 ^ 63 ≤ x < 2 ^ 63 →
  if x <? 0 then
    ∃ ds, appendInt EmptyString x width = String "-" ds
          ∧ string_forallb isDigit ds = true
  else string_forallb isDigit (appendInt EmptyString x width) = true.
Proof.
  intros Hx. unfold appendInt. change (2 ^ 63) with 9223372036854775808 in Hx.
  destruct (Z.ltb_spec x 0).
  - eexists. split; [reflexivity|]. rewrite string_forallb_app, zeros_digits.
    apply utoa_digits; [apply to_uint64_range | reflexivity].
  - change (EmptyString +:+ ?s) with s. rewrite string_forallb_app, zeros_digits.
    apply utoa_digits; [apply to_uint64_range | reflexivity].
Qed.

Lemma string_forallb_weaken (p q : ascii → bool) (s : string) :
  (∀ c, p c = true → q c = true) →
  string_forallb p s = true → string_forallb q s = true.
Proof.
  intros Hpq. induction s as [|c s IH]; [reflexivity|]. cbn [string_forallb].
  intros H. apply andb_prop in H. destruct H as [Hc Hs].
  rewrite (Hpq c Hc), (IH Hs). reflexivity.
Qed.

Lemma isDigit_identChar (c : ascii) : isDigit c = true → identChar c = true.
Proof. unfold identChar. intros ->. reflexivity. Qed.

Lemma isDigit_timestampChar (c : ascii) : isDigit c = true → timestampChar c = true.
Proof. unfold timestampChar. intros ->. reflexivity. Qed.

(** Every formatted integer is made of characters of a timestamp. *)
Lemma appendInt_timestampChars (x width : Z) :
  - 2 ^ 63 ≤ x < 2 ^ 63 →
  string_forallb timestampChar (appendInt EmptyString x width) = true.
Proof.
  intros Hx. pose proof (appendInt_chars x width Hx) as H.
  destruct (x <? 0).
  - destruct H as [ds [-> Hds]]. cbn [string_forallb].
    change (timestampChar "-") with true.
    apply (string_forallb_weaken isDigit); [apply isDigit_timestampChar | exact Hds].
  - apply (string_forallb_weaken isDigit); [apply isDigit_timestampChar | exact H].
Qed.

Lemma nanoDigits_digits (k : nat) (u : Z) (acc : string) :
  string_forallb isDigit acc = true →
  string_forallb isDigit (nanoDigits k u acc) = true.
Proof.
  revert u acc. induction k as [|k IH]; intros u acc Hacc; [exact Hacc|].
  cbn [nanoDigits]. apply IH. cbn [string_forallb].
  rewrite isDigit_digit by euclid. exact Hacc.
Qed.

Lemma substring_forallb (p : ascii → bool) (n m : nat) (s : string) :
  string_forallb p s = true → string_forallb p (String.substring n m s) = true.
Proof.
  revert n m. induction s as [|c s IH]; intros n m Hs.
  - destruct n, m; reflexivity.
  - cbn [string_forallb] in Hs. apply andb_prop in Hs. destruct Hs as [Hc Hs].
    destruct n as [|n]; [destruct m as [|m]|]; cbn [String.substring].
    + reflexivity.
    + cbn [string_forallb]. rewrite Hc. apply IH. exact Hs.
    + apply IH. exact Hs.
Qed.

Lemma formatNano_timestampChars (nanosec : Z) :
  string_forallb timestampChar (formatNano EmptyString nanosec) = true.
Proof.
  unfold formatNano. destruct (trimZeros 9 _) as [|n]; [reflexivity|].
  change (EmptyString +:+ "." +:+ ?s) with (String "." s). cbn [string_forallb].
  change (timestampChar ".") with true.
  apply (string_forallb_weaken isDigit); [apply isDigit_timestampChar|].
  apply substring_forallb. apply nanoDigits_digits. reflexivity.
Qed.

(** X11. The name of a child table is an identifier that needs no
    quoting, made of lower-case letters, digits and underscores, exactly
    when the year of the timestamp in UTC is not negative: a year before
    year 0 puts a minus sign in the name. With a year of four digits the
    name has 35 characters. *)
Theorem ChildTableName_identifier (t : Time) :
  let '(year, _, _) := utcDate t in
  string_forallb identChar (ChildTableName t) = (0 <=? year)
  ∧ (0 ≤ year < 10000 → String.length (ChildTableName t) = 35%nat).
Proof.
  pose proof (ChildTableName_utc t) as H. pose proof (utcDate_range t) as R.
  destruct (utcDate t) as [[y m] d]. destruct R as (Ry & Rm & Rd).
  change (2 ^ 62) with 4611686018427387904 in Ry.
  assert (Hm : string_forallb identChar (appendInt EmptyString m 2) = true).
  { pose proof (appendInt_chars m 2) as Hc. destruct (Z.ltb_spec m 0); [lia|].
    apply (string_forallb_weaken isDigit); [apply isDigit_identChar|].
    apply Hc. change (2 ^ 63) with 9223372036854775808. lia. }
  assert (Hd : string_forallb identChar (appendInt EmptyString d 2) = true).
  { pose proof (appendInt_chars d 2) as Hc. destruct (Z.ltb_spec d 0); [lia|].
    apply (string_forallb_weaken isDigit); [apply isDigit_identChar|].
    apply Hc. change (2 ^ 63) with 9223372036854775808. lia. }
  rewrite H. split.
  - rewrite !string_forallb_app, Hm, Hd.
    change (string_forallb identChar "transaction_partition_y") with true.
    change (string_forallb identChar "_m") with true.
    change (string_forallb identChar "_d") with true.
    rewrite !andb_true_r, andb_true_l.
    pose proof (appendInt_chars y 4) as Hc.
    destruct (Z.ltb_spec y 0) as [Hneg|Hpos].
    + destruct Hc as [ds [-> _]];
        [change (2 ^ 63) with 9223372036854775808; lia|].
      destruct (Z.leb_spec 0 y); [lia | reflexivity].
    + destruct (Z.leb_spec 0 y); [|lia].
      apply (string_forallb_weaken isDigit); [apply isDigit_identChar|].
      apply Hc. change (2 ^ 63) with 9223372036854775808. lia.
  - intros Hy. rewrite !string_app_length, !appendInt_width2 by lia.
    rewrite appendInt_width4 by lia. reflexivity.
Qed.

(** X12. The bound of the creation statement is made of digits and of
    the characters [-], [:], [T], [.] and [Z] only, for every timestamp:
    it holds no quote, so it cannot end the quotation that the statement
    puts around it. *)
Theorem bound_literal_chars (t : Time) :
  string_forallb timestampChar (Time_Format (Time_UTC t) RFC3339Nano) = true
  ∧ childTableSQL t
    = "CREATE TABLE IF NOT EXISTS " +:+ ChildTableName t
        +:+ " PARTITION OF transactions_partitioned FOR VALUES IN ('"
        +:+ Time_Format (Time_UTC t) RFC3339Nano +:+ "');".
Proof.
  split; [|reflexivity].
  pose proof (RFC3339Nano_utc t) as H. pose proof (utcDate_range t) as R.
  pose proof (absClock_range _ (proj1 (Time_abs_range (Time_UTC t)))) as Hc.
  fold (utcClock t) in Hc.
  destruct (utcDate t) as [[y m] d]. destruct (utcClock t) as [[hh mm] ss].
  change (2 ^ 62) with 4611686018427387904 in R.
  rewrite H, !string_forallb_app.
  rewrite !appendInt_timestampChars
    by (change (2 ^ 63) with 9223372036854775808; lia).
  rewrite formatNano_timestampChars. reflexivity.
Qed.

End Characters.

(** ** Dates given to [ChildTableName] *)

Section Dates.

Lemma to_int64_range z : - 2 ^ 63 ≤ to_int64 z < 2 ^ 63.
Proof.
  unfold to_int64. change (2 ^ 64) with 18446744073709551616.
  change (2 ^ 63) with 9223372036854775808. euclid.
Qed.

Lemma Date_loc (year month day hour min sec ns : Z) (l : Location) :
  loc (Date year month day hour min sec ns l) = l.
Proof.
  unfold Date. repeat match goal with |- context [norm ?a ?b ?c] =>
    destruct (norm a b c) end. reflexivity.
Qed.

Lemma Date_unixSec_range (year month day hour min sec ns : Z) (l : Location) :
  - 2 ^ 63 ≤ unixSec (Date year month day hour min sec ns l) < 2 ^ 63.
Proof.
  unfold Date. repeat match goal with |- context [norm ?a ?b ?c] =>
    destruct (norm a b c) end. cbn [unixSec]. apply to_int64_range.
Qed.

Lemma Time_abs_UTC (t : Time) : loc t = UTC → Time_abs (Time_UTC t) = Time_abs t.
Proof. intros H. unfold Time_abs, Time_UTC. cbn [loc unixSec]. rewrite H. reflexivity. Qed.

(** X13. The day that [ChildTableName] computes before formatting is
    midnight UTC of the calendar day of its argument: the same date, the
    time of day 00:00:00 with no nanoseconds, in UTC, and, where Go
    computes dates, the Unix time of the start of the day. Naming is
    idempotent under this truncation. *)
Theorem currentDay_is_midnight (t : Time) :
  let currentTime := Time_UTC t in
  let currentDay :=
    Date (Time_Year currentTime) (Time_Month currentTime) (Time_Day currentTime)
         0 0 0 0 UTC in
  utcDate currentDay = utcDate t
  ∧ utcClock currentDay = (0, 0, 0)
  ∧ nsec currentDay = 0 ∧ loc currentDay = UTC
  ∧ ChildTableName currentDay = ChildTableName t
  ∧ (afterAbsoluteZero t → unixSec currentDay = unixDay t * secondsPerDay).
Proof.
  intros currentTime currentDay. subst currentTime.
  destruct (utcDate_absDate t) as [yd Hdate].
  pose proof (Time_abs_Date _ (Time_abs_range (Time_UTC t))) as Habs.
  pose proof (absDate_Date _ (Time_abs_range (Time_UTC t))) as Hround.
  rewrite Hdate in Habs, Hround. destruct (utcDate t) as [[y m] d] eqn:Hutc.
  unfold utcDate in Hutc. injection Hutc as Hy Hm Hd.
  subst currentDay. rewrite Hy, Hm, Hd. set (currentDay := Date y m d 0 0 0 0 UTC) in *.
  assert (Hloc : loc currentDay = UTC) by apply Date_loc.
  assert (Hday : utcDate currentDay = (y, m, d)).
  { unfold utcDate, Time_Year, Time_Month, Time_Day.
    rewrite (Time_abs_UTC _ Hloc), Hround. reflexivity. }
  split; [exact Hday|]. split.
  { unfold utcClock. rewrite (Time_abs_UTC _ Hloc), Habs. unfold absClock.
    rewrite Z.mod_mul by discriminate. reflexivity. }
  split.
  { subst currentDay. unfold Date. destruct (norm y (m - 1) 12) as [y' m'].
    change (norm 0 0 1000000000) with (0, 0). cbv beta iota zeta.
    change (norm 0 0 60) with (0, 0). cbv beta iota zeta.
    change (norm 0 0 60) with (0, 0). cbv beta iota zeta.
    destruct (norm d 0 24). reflexivity. }
  split; [exact Hloc|]. split.
  { apply ChildTableName_utcDate. rewrite Hday. unfold utcDate.
    rewrite Hy, Hm, Hd. reflexivity. }
  intros Hr. unfold afterAbsoluteZero in Hr. unfold unixDay.
  pose proof (Date_unixSec_range y m d 0 0 0 0 UTC) as Hrange.
  fold currentDay in Hrange.
  unfold Time_abs in Habs. rewrite Hloc in Habs. unfold Time_UTC in Habs.
  cbn [loc unixSec] in Habs.
  change (unixToInternal + internalToAbsolute) with 9223372028715321600 in *.
  change (2 ^ 63) with 9223372036854775808 in *.
  rewrite (to_uint64_small (unixSec t + 9223372028715321600)) in Habs
    by (change (2 ^ 64) with 18446744073709551616; lia).
  unfold to_uint64 in Habs. change (2 ^ 64) with 18446744073709551616 in Habs.
  change secondsPerDay with 86400 in *. euclid.
Qed.

End Dates.

(** ** Valid dates *)

Section ValidDates.

(** The days before a year, in closed form. *)
Lemma daysSinceEpoch_closed (year : Z) :
  absoluteZeroYear ≤ year < 2 ^ 62 →
  daysSinceEpoch year
    = let Y := year - absoluteZeroYear in 365 * Y + Y / 4 - Y / 100 + Y / 400.
Proof.
  intros Hy. unfold daysSinceEpoch. unfold absoluteZeroYear in *.
  change (2 ^ 62) with 4611686018427387904 in Hy.
  rewrite to_int64_small by (change (2 ^ 63) with 9223372036854775808; lia).
  rewrite to_uint64_small by (change (2 ^ 64) with 18446744073709551616; lia).
  unfold daysPer400Years, daysPer100Years, daysPer4Years. cbv zeta. euclid.
Qed.

(** A year is followed by the next one after 366 days if it is a leap
    year and after 365 otherwise. *)
Lemma daysSinceEpoch_succ (year : Z) :
  absoluteZeroYear ≤ year < 2 ^ 62 - 1 →
  daysSinceEpoch (year + 1)
    = daysSinceEpoch year + (if isLeap year then 366 else 365).
Proof.
  intros Hy. rewrite !daysSinceEpoch_closed by lia. rewrite isLeap_mod.
  unfold absoluteZeroYear in *. cbv zeta.
  destruct (Z.eqb_spec (year mod 4) 0), (Z.eqb_spec (year mod 100) 0),
    (Z.eqb_spec (year mod 400) 0); cbn [negb andb orb]; euclid.
Qed.

Lemma daysSinceEpoch_mono (y1 y2 : Z) :
  absoluteZeroYear ≤ y1 → y1 ≤ y2 → y2 < 2 ^ 62 →
  daysSinceEpoch y1 ≤ daysSinceEpoch y2.
Proof.
  intros H1 Hle H2. rewrite !daysSinceEpoch_closed by lia.
  unfold absoluteZeroYear in *. cbv zeta. euclid.
Qed.

(** A day number is a day of one year only. *)
Lemma year_of_day_unique (y1 y2 yd1 yd2 : Z) :
  absoluteZeroYear ≤ y1 < 2 ^ 62 - 1 → absoluteZeroYear ≤ y2 < 2 ^ 62 - 1 →
  0 ≤ yd1 < (if isLeap y1 then 366 else 365) →
  0 ≤ yd2 < (if isLeap y2 then 366 else 365) →
  daysSinceEpoch y1 + yd1 = daysSinceEpoch y2 + yd2 →
  y1 = y2 ∧ yd1 = yd2.
Proof.
  intros H1 H2 Hd1 Hd2 Heq.
  assert (Hy : y1 = y2).
  { destruct (Z.lt_trichotomy y1 y2) as [Hlt | [Heq' | Hgt]]; [|exact Heq'|].
    - pose proof (daysSinceEpoch_mono (y1 + 1) y2 ltac:(lia) ltac:(lia) ltac:(lia)).
      rewrite daysSinceEpoch_succ in H by lia. lia.
    - pose proof (daysSinceEpoch_mono (y2 + 1) y1 ltac:(lia) ltac:(lia) ltac:(lia)).
      rewrite daysSinceEpoch_succ in H by lia. lia. }
  subst y2. split; [reflexivity | lia].
Qed.

(** The year that [absYearDay] finds is not before the absolute zero
    year. *)
Lemma absYearDay_year (abs : Z) :
  0 ≤ abs < 2 ^ 64 → absoluteZeroYear ≤ fst (absYearDay abs) < 2 ^ 61.
Proof.
  intros Habs. unfold absYearDay. cbn [fst].
  set (D := abs / secondsPerDay).
  assert (HD : 0 ≤ D < 2 ^ 48).
  { subst D. unfold secondsPerDay, secondsPerHour, secondsPerMinute.
    change (2 ^ 64) with 18446744073709551616 in Habs.
    change (2 ^ 48) with 281474976710656. euclid. }
  rewrite !Z.shiftr_div_pow2 by lia. change (2 ^ 2) with 4.
  unfold daysPer400Years, daysPer100Years, daysPer4Years.
  change (365 * 400 + 97) with 146097. change (365 * 100 + 24) with 36524.
  change (365 * 4 + 1) with 1461.
  pose proof (year_cycles D (proj1 HD)) as Hc. cbv zeta in Hc.
  set (n400 := D / 146097) in *.
  set (r1 := D - 146097 * n400) in *.
  set (n100 := r1 / 36524 - r1 / 36524 / 4) in *.
  set (r2 := r1 - 36524 * n100) in *.
  set (q4 := r2 / 1461) in *.
  set (r3 := r2 - 1461 * q4) in *.
  set (n1 := r3 / 365 - r3 / 365 / 4) in *.
  destruct Hc as (H400 & H100 & H4 & H1 & _).
  assert (H400' : n400 < 2 ^ 40).
  { subst n400. change (2 ^ 48) with 281474976710656 in HD.
    change (2 ^ 40) with 1099511627776. euclid. }
  change (2 ^ 40) with 1099511627776 in H400'.
  rewrite (to_int64_small (400 * n400 + 100 * n100 + 4 * q4 + n1))
    by (change (2 ^ 63) with 9223372036854775808; lia).
  rewrite to_int64_small
    by (unfold absoluteZeroYear; change (2 ^ 63) with 9223372036854775808; lia).
  unfold absoluteZeroYear. change (2 ^ 61) with 2305843009213693952. lia.
Qed.

Lemma daysIn_isLeap (m y1 y2 : Z) : isLeap y1 = isLeap y2 → daysIn m y1 = daysIn m y2.
Proof. intros H. unfold daysIn. rewrite H. reflexivity. Qed.

(** [monthDay] finds the month and the day of a date that exists from the
    number of its day in the year. *)
Lemma monthDay_inverse (year month day : Z) :
  validDate year month day →
  let yday := daysBefore_at (month - 1)
              + (if isLeap year && (month >=? March) then 1 else 0) + (day - 1) in
  0 ≤ yday < (if isLeap year then 366 else 365)
  ∧ monthDay year yday = (month, day).
Proof.
  set (ok := fun (y m d : Z) =>
    let yday := daysBefore_at (m - 1)
                + (if isLeap y && (m >=? March) then 1 else 0) + (d - 1) in
    if (1 <=? m) && (1 <=? d) && (d <=? daysIn m y) then
      (0 <=? yday) && (yday <? (if isLeap y then 366 else 365))
      && (fst (monthDay y yday) =? m) && (snd (monthDay y yday) =? d)
    else true).
  assert (Hall : ∀ y, (y = 4 ∨ y = 1) → ∀ m d, 0 ≤ m < 13 → 0 ≤ d < 32 →
                      ok y m d = true).
  { intros y Hy m d Hm Hd.
    apply (forall_below 32 (ok y m)); [|lia].
    apply (forall_below 13
             (fun m => forallb (fun k => ok y m (Z.of_nat k)) (seq 0 32))); [|lia].
    destruct Hy as [-> | ->]; vm_compute; reflexivity. }
  assert (Hok : ∀ y m d, ok y m d = true → 1 ≤ m → 1 ≤ d ≤ daysIn m y →
            let yday := daysBefore_at (m - 1)
                        + (if isLeap y && (m >=? March) then 1 else 0) + (d - 1) in
            0 ≤ yday < (if isLeap y then 366 else 365)
            ∧ monthDay y yday = (m, d)).
  { intros y m d H Hm Hd. unfold ok in H. cbv zeta in *.
    destruct (Z.leb_spec 1 m); [|lia]. destruct (Z.leb_spec 1 d); [|lia].
    destruct (Z.leb_spec d (daysIn m y)); [|lia]. cbn [andb] in H.
    repeat (apply andb_prop in H; destruct H as [H ?]).
    destruct (monthDay y _) as [m' d']. cbn [fst snd] in *.
    split; [lia|]. f_equal; lia. }
  intros [Hm Hd]. cbv zeta.
  assert (Hd31 : daysIn month year ≤ 31).
  { unfold daysIn. destruct ((month =? February) && isLeap year); [lia|].
    apply Z.leb_le.
    apply (forall_below 13 (fun m => daysBefore_at m - daysBefore_at (m - 1) <=? 31));
      [vm_compute; reflexivity | lia]. }
  assert (Hday31 : day ≤ 31) by lia.
  destruct (isLeap year) eqn:Hleap.
  - pose proof (Hok 4 month day) as H. cbv zeta in H.
    rewrite (daysIn_isLeap month year 4) in Hd by (rewrite Hleap; reflexivity).
    change (isLeap 4) with true in H.
    rewrite (monthDay_isLeap year 4) by (rewrite Hleap; reflexivity).
    apply H; [apply Hall; [auto | lia | lia] | lia | exact Hd].
  - pose proof (Hok 1 month day) as H. cbv zeta in H.
    rewrite (daysIn_isLeap month year 1) in Hd by (rewrite Hleap; reflexivity).
    change (isLeap 1) with false in H.
    rewrite (monthDay_isLeap year 1) by (rewrite Hleap; reflexivity).
    apply H; [apply Hall; [auto | lia | lia] | lia | exact Hd].
Qed.

(** The absolute time of a date and a time of day that exist, in UTC. *)
Lemma Time_abs_Date_valid (year month day hour min sec ns : Z) :
  absoluteZeroYear ≤ year ≤ 100000000000 →
  validDate year month day → validClock hour min sec ns →
  let yday := daysBefore_at (month - 1)
              + (if isLeap year && (month >=? March) then 1 else 0) + (day - 1) in
  Time_abs (Date year month day hour min sec ns UTC)
    = (daysSinceEpoch year + yday) * 86400 + (hour * 3600 + min * 60 + sec)
  ∧ nsec (Date year month day hour min sec ns UTC) = ns
  ∧ 0 ≤ daysSinceEpoch year + yday < 200000000000000.
Proof.
  intros Hy Hdate Hclock. cbv zeta.
  pose proof (monthDay_inverse year month day Hdate) as [Hyd _]. cbv zeta in Hyd.
  destruct Hdate as [Hm Hd]. destruct Hclock as (Hh & Hmi & Hs & Hns).
  assert (Hdse : 0 ≤ daysSinceEpoch year < 150000000000000).
  { rewrite daysSinceEpoch_closed
      by (change (2 ^ 62) with 4611686018427387904; lia).
    unfold absoluteZeroYear in *. cbv zeta. euclid. }
  set (yday := daysBefore_at (month - 1)
               + (if isLeap year && (month >=? March) then 1 else 0) + (day - 1)) in *.
  assert (Hyd' : 0 ≤ yday ≤ 365) by (destruct (isLeap year); lia).
  unfold Date.
  rewrite (norm_id year (month - 1) 12) by lia.
  rewrite (norm_id sec ns 1000000000) by lia.
  rewrite (norm_id min sec 60) by lia.
  rewrite (norm_id hour min 60) by lia.
  rewrite (norm_id day hour 24) by lia.
  replace (month - 1 + 1) with month by lia.
  split; [|split; [reflexivity | lia]].
  assert (Hd1 : to_uint64
                  ((if isLeap year && (month >=? March)
                    then daysSinceEpoch year + daysBefore_at (month - 1) + 1
                    else daysSinceEpoch year + daysBefore_at (month - 1))
                   + to_uint64 (day - 1)) = daysSinceEpoch year + yday).
  { assert (Hd31 : day ≤ 366) by (subst yday; destruct (isLeap year && (month >=? March));
      assert (0 ≤ daysBefore_at (month - 1))
        by (apply Z.leb_le;
            apply (forall_below 13 (fun m => 0 <=? daysBefore_at (m - 1)));
            [vm_compute; reflexivity | lia]); lia).
    rewrite (to_uint64_small (day - 1))
      by (change (2 ^ 64) with 18446744073709551616; lia).
    subst yday. rewrite to_uint64_small;
      [destruct (isLeap year && (month >=? March)); lia|].
    change (2 ^ 64) with 18446744073709551616.
    destruct (isLeap year && (month >=? March)); lia. }
  rewrite Hd1. unfold secondsPerDay, secondsPerHour, secondsPerMinute.
  change (24 * (60 * 60)) with 86400. change (60 * 60) with 3600.
  set (Dn := daysSinceEpoch year + yday) in *.
  rewrite (to_uint64_small (Dn * 86400))
    by (change (2 ^ 64) with 18446744073709551616; lia).
  rewrite (to_uint64_small (hour * 3600 + min * 60 + sec))
    by (change (2 ^ 64) with 18446744073709551616; lia).
  rewrite (to_uint64_small (Dn * 86400 + _))
    by (change (2 ^ 64) with 18446744073709551616; lia).
  unfold Time_abs. cbn [loc unixSec zone_offset]. rewrite Z.sub_0_r.
  rewrite !to_uint64_to_int64_add, <- Z.add_assoc, to_uint64_to_int64_add.
  replace (Dn * 86400 + (hour * 3600 + min * 60 + sec)
           + (absoluteToInternal + internalToUnix
              + (unixToInternal + internalToAbsolute)))
    with (Dn * 86400 + (hour * 3600 + min * 60 + sec))
    by (unfold internalToUnix, internalToAbsolute; lia).
  apply to_uint64_small. change (2 ^ 64) with 18446744073709551616. lia.
Qed.

(** X14. A date that exists, with a time of day that exists, is read back
    as given: [time.Date] in UTC followed by the date and the clock in UTC
    returns the year, month, day, hour, minute and second it was built
    from. So the child table of such a timestamp is named after exactly
    the year, the month and the day given, whatever the time of day. *)
Theorem Date_names_its_day (year month day hour min sec ns : Z) :
  absoluteZeroYear ≤ year ≤ 100000000000 →
  validDate year month day → validClock hour min sec ns →
  let t := Date year month day hour min sec ns UTC in
  utcDate t = (year, month, day)
  ∧ utcClock t = (hour, min, sec)
  ∧ nsec t = ns
  ∧ ChildTableName t
    = "transaction_partition_y" +:+ appendInt EmptyString year 4
        +:+ "_m" +:+ appendInt EmptyString month 2
        +:+ "_d" +:+ appendInt EmptyString day 2.
Proof.
  intros Hy Hdate Hclock t.
  pose proof (Time_abs_Date_valid year month day hour min sec ns Hy Hdate Hclock)
    as (Habs & Hns & HDn).
  pose proof (monthDay_inverse year month day Hdate) as [Hyd Hmd].
  cbv zeta in Habs, HDn, Hyd, Hmd. fold t in Habs, Hns.
  set (yday := daysBefore_at (month - 1)
               + (if isLeap year && (month >=? March) then 1 else 0) + (day - 1)) in *.
  set (Dn := daysSinceEpoch year + yday) in *.
  destruct Hclock as (Hh & Hmi & Hs & _).
  assert (Hloc : loc t = UTC) by apply Date_loc.
  assert (Hrange : 0 ≤ Time_abs t < 2 ^ 64) by apply Time_abs_range.
  assert (Hdiv : Time_abs t / secondsPerDay = Dn).
  { rewrite Habs. change secondsPerDay with 86400. euclid. }
  assert (Hyear : absYearDay (Time_abs t) = (year, yday)).
  { pose proof (absYearDay_spec _ Hrange) as Hspec.
    pose proof (absYearDay_year _ Hrange) as Hlow.
    destruct (absYearDay (Time_abs t)) as [y' yd']. cbn [fst] in Hlow.
    destruct Hspec as (Hsum & Hyd' & _). rewrite Hdiv in Hsum.
    change (2 ^ 61) with 2305843009213693952 in Hlow.
    destruct (year_of_day_unique y' year yd' yday) as [-> ->];
      try (change (2 ^ 62) with 4611686018427387904; lia); try assumption.
    reflexivity. }
  assert (Hdate' : utcDate t = (year, month, day)).
  { unfold utcDate, Time_Year, Time_Month, Time_Day.
    rewrite (Time_abs_UTC _ Hloc). unfold absDate. rewrite Hyear, Hmd. reflexivity. }
  split; [exact Hdate'|]. split.
  { unfold utcClock. rewrite (Time_abs_UTC _ Hloc), Habs.
    unfold absClock, secondsPerDay, secondsPerHour, secondsPerMinute.
    change (24 * (60 * 60)) with 86400. change (60 * 60) with 3600.
    assert (Hmod : (Dn * 86400 + (hour * 3600 + min * 60 + sec)) mod 86400
                   = hour * 3600 + min * 60 + sec) by euclid.
    rewrite Hmod. f_equal; [f_equal|]; euclid. }
  split; [exact Hns|].
  pose proof (ChildTableName_utc t) as Hname. rewrite Hdate' in Hname. exact Hname.
Qed.

End ValidDates.

(** ** Who writes the cache *)

Section CacheWriters.

Variable drv : Driver.
Implicit Types (l : Logic drv) (trx : Transaction) (t : Time).

Lemma other_op_keeps_cache (o : Op) l :
  cachedOp o = false → childTableMap (run_op o l) = childTableMap l.
Proof.
  intros Ho. destruct o; try discriminate Ho; cbn [run_op].
  - rewrite CreateLogTable_run. apply Exec_childTableMap.
  - apply insertWith_childTableMap.
  - rewrite CreatePartitionParentTable_run. apply Exec_childTableMap.
  - apply CreateNewPartitionChildTable_childTableMap.
  - apply CheckPartitionChildTable_childTableMap.
  - apply insertWith_childTableMap.
  - unfold InsertTransactionPartitionedDynamic, bind, ret.
    pose proof (CreateNewPartitionChildTable_childTableMap drv (TrxDate trx) l) as Hm.
    destruct (CreateNewPartitionChildTable drv (TrxDate trx) l) as [[e|] l1];
      cbn [fst snd] in *; [exact Hm|].
    unfold InsertTransactionPartitioned. rewrite insertWith_childTableMap. exact Hm.
  - apply fetchWith_childTableMap.
  - apply fetchWith_childTableMap.
Qed.

(** X15. Only the cached insert writes the cache. Whatever is done
    through the other methods, among them creating the child table
    directly or through the dynamic insert, leaves the cache as it was; so
    the next cached insert for a day that was not marked sends the creation
    statement of that day first, also when the table has just been
    created. *)
Theorem only_cached_insert_writes_cache (ops : list Op) l trx :
  forallb (λ o, negb (cachedOp o)) ops = true →
  let l' := run_ops ops l in
  childTableMap l' = childTableMap l
  ∧ (knownExisting (childTableMap l !! cacheKey (ChildTableName (TrxDate trx))) = false →
     ∃ err rest,
       calls (snd (InsertTransactionPartitionedDynamicCached drv trx l'))
         = calls l' ++ CallExec (childTableSQL (TrxDate trx)) err :: rest).
Proof.
  intros Hops l'. subst l'.
  assert (Hm : childTableMap (run_ops ops l) = childTableMap l).
  { revert l. induction ops as [|o ops IH]; intros l; [reflexivity|].
    cbn in Hops. apply andb_prop in Hops. destruct Hops as [Ho Hops].
    cbn [run_ops fold_left]. change (fold_left _ ops ?x) with (run_ops ops x).
    rewrite (IH Hops). apply other_op_keeps_cache.
    destruct (cachedOp o); [discriminate Ho | reflexivity]. }
  split; [exact Hm|]. intros Hk. rewrite <- Hm in Hk.
  destruct (Cached_outcome drv trx (run_ops ops l)) as [H | [H | H]].
  - destruct H as [Hk' _]. congruence.
  - destruct H as (_ & e & _ & _ & _ & Hc). exists (Some e), []. exact Hc.
  - destruct H as (_ & d & _ & _ & _ & qe & Hc). eexists None, _. exact Hc.
Qed.

End CacheWriters.

(** ** The records of a request *)

Section RequestRecords.

Variable drv : Driver.

(** The inserts of the loop, one after the other from iteration [i] on. *)
Lemma insertLoop_arguments (uuid : Z → string) (reqBody : Req) (n : nat) :
  ∀ (i : Z) (trxs : list Transaction) (l : Logic drv),
    let r := insertLoop drv (InsertTransactionWithoutPartition drv)
               uuid reqBody n i trxs l in
    ∃ new, calls (snd r) = calls l ++ new
           ∧ ∀ (j : nat) (c : Call), new !! j = Some c →
               ∃ err, c = CallQuery sqlInsertTransaction
                            [ ArgString (uuid (i + Z.of_nat j));
                              ArgString (ReqUserID reqBody);
                              ArgString ("{" +:+ dq +:+ "iteration" +:+ dq +:+ ": "
                                           +:+ itoa (i + Z.of_nat j) +:+ "}");
                              ArgString "SUCCESS";
                              ArgTime (ReqDate reqBody); ArgTime (ReqDate reqBody) ]
                            err.
Proof.
  induction n as [|n IH]; intros i trxs l.
  - cbn. exists []. rewrite app_nil_r. split; [reflexivity|].
    intros j c Hj. rewrite lookup_nil in Hj. discriminate.
  - cbn [insertLoop]. unfold bind, ret.
    set (trx := {| ID := _; UserID := ReqUserID reqBody |}).
    destruct (insertWith_calls drv sqlInsertTransaction trx l) as [qe Hq].
    change (InsertTransactionWithoutPartition drv trx l)
      with (insertWith drv sqlInsertTransaction trx l).
    destruct (insertWith drv sqlInsertTransaction trx l) as [[trx' err] l1].
    cbn [fst snd] in *.
    assert (Hfirst : ∀ (j : nat) (c : Call),
              [CallQuery sqlInsertTransaction (insertArgs trx) qe] !! j = Some c →
              ∃ err, c = CallQuery sqlInsertTransaction
                           [ ArgString (uuid (i + Z.of_nat j));
                             ArgString (ReqUserID reqBody);
                             ArgString ("{" +:+ dq +:+ "iteration" +:+ dq +:+ ": "
                                          +:+ itoa (i + Z.of_nat j) +:+ "}");
                             ArgString "SUCCESS";
                             ArgTime (ReqDate reqBody); ArgTime (ReqDate reqBody) ]
                           err).
    { intros [|j] c Hj; [|destruct j; discriminate Hj]. cbn in Hj.
      injection Hj as <-. exists qe. rewrite Z.add_0_r. reflexivity. }
    destruct err as [e|]; cbn [fst snd].
    + eexists. split; [exact Hq | exact Hfirst].
    + destruct (IH (i + 1) (trxs ++ [trx']) l1) as (new & Hnew & Hargs).
      exists (CallQuery sqlInsertTransaction (insertArgs trx) qe :: new).
      split; [rewrite Hnew, Hq, <- app_assoc; reflexivity|].
      intros [|j] c Hj.
      * apply (Hfirst 0%nat). exact Hj.
      * cbn in Hj. destruct (Hargs j c Hj) as [err Hc]. exists err. rewrite Hc.
        replace (i + Z.of_nat (S j)) with (i + 1 + Z.of_nat j) by lia. reflexivity.
Qed.

(** X16. The records of a POST to the route without partition are
    inserted in the order of the loop: the insert number [j] (from 0)
    carries the identifier drawn in iteration [j], the user of the request
    (not the one that [NewLog] sets), the text of the iteration as info,
    the status SUCCESS, and the date of the request both as date and as
    timestamp. *)
Theorem post_no_partition_arguments (uuid : Z → string) (reqBody : Req)
    (l : Logic drv) :
  let r := PostTransactionNoPartition drv uuid (inr reqBody) l in
  ∃ new, calls (snd r) = calls l ++ new
         ∧ ∀ (j : nat) (c : Call), new !! j = Some c →
             ∃ err, c = CallQuery sqlInsertTransaction
                          [ ArgString (uuid (Z.of_nat j));
                            ArgString (ReqUserID reqBody);
                            ArgString ("{" +:+ dq +:+ "iteration" +:+ dq +:+ ": "
                                         +:+ itoa (Z.of_nat j) +:+ "}");
                            ArgString "SUCCESS";
                            ArgTime (ReqDate reqBody); ArgTime (ReqDate reqBody) ]
                          err.
Proof.
  intros r. subst r. unfold PostTransactionNoPartition.
  exact (insertLoop_arguments uuid reqBody (Z.to_nat (N reqBody)) 0 [] l).
Qed.

End RequestRecords.

(** ** Further runs on the scripted database *)

Section MoreRuns.

Import mock.

(** The check of a table on a database without rows: nil for the empty
    name, an error for any other. *)
Lemma check_outcome_witness :
  fst (CheckPartitionChildTable driver EmptyString (NewLogic (drv := driver) [])) = None
  ∧ fst (CheckPartitionChildTable driver "transaction_partition_y2021_m06_d30"
           (NewLogic (drv := driver) []))
    = Some (Errorf "not found table %s, returning %s from query"
              ["transaction_partition_y2021_m06_d30"; EmptyString]).
Proof.
  split.
  - apply (proj2 (proj2 (proj2 (check_outcome driver EmptyString
                                   (NewLogic (drv := driver) []))))
             (mkRows [] None)); reflexivity.
  - apply (proj2 (proj2 (proj2 (check_outcome driver
                                   "transaction_partition_y2021_m06_d30"
                                   (NewLogic (drv := driver) []))))
             (mkRows [] None)); reflexivity.
Defined.

(** A first insert for a day, cached and dynamic, on the same database. *)
Lemma cached_miss_matches_dynamic_witness :
  let l := NewLogic (drv := driver) [] in
  knownExisting (childTableMap l !! cacheKey (ChildTableName (TrxDate trxA))) = false
  ∧ fst (InsertTransactionPartitionedDynamicCached driver trxA l)
    = fst (InsertTransactionPartitionedDynamic driver trxA l)
  ∧ calls (snd (InsertTransactionPartitionedDynamicCached driver trxA l))
    = calls (snd (InsertTransactionPartitionedDynamic driver trxA l)).
Proof.
  intros l.
  assert (H : knownExisting
                (childTableMap l !! cacheKey (ChildTableName (TrxDate trxA))) = false)
    by (vm_compute; reflexivity).
  split; [exact H|].
  destruct (cached_miss_matches_dynamic driver trxA l H) as (H1 & _ & H3 & _).
  split; [exact H1 | exact H3].
Defined.

(** The creation succeeds and the insert is rejected: the day is marked
    all the same. *)
Lemma cached_marks_before_insert_witness :
  let rejected := DriverError "pq: duplicate key value violates unique constraint" in
  let l := NewLogic (drv := driver) [ReplyExec None; ReplyQueryError rejected] in
  let l1 := snd (InsertTransactionPartitionedDynamicCached driver trxA l) in
  fst (InsertTransactionPartitionedDynamicCached driver trxA l) = (trxA, Some rejected)
  ∧ childTableMap l1 !! cacheKey (ChildTableName (TrxDate trxA)) = Some (any_bool true)
  ∧ InsertTransactionPartitionedDynamicCached driver trxB l1
    = InsertTransactionPartitioned driver trxB l1.
Proof.
  intros rejected l l1. split; [vm_compute; reflexivity|].
  apply (cached_marks_before_insert driver trxA l [ReplyQueryError rejected] trxB);
    vm_compute; reflexivity.
Defined.

(** After a cached insert, a hit for the end of the same day. *)
Lemma cache_hit_means_created_witness :
  let l := run_ops [OpInsertTransactionPartitionedDynamicCached trxA]
             (NewLogic (drv := driver) []) in
  knownExisting (childTableMap l !! cacheKey (ChildTableName (TrxDate trxB))) = true
  ∧ ∃ t, utcDate t = utcDate (TrxDate trxB)
         ∧ ChildTableName t = ChildTableName (TrxDate trxB)
         ∧ CallExec (childTableSQL t) None ∈ calls l.
Proof.
  intros l.
  assert (H : knownExisting
                (childTableMap l !! cacheKey (ChildTableName (TrxDate trxB))) = true)
    by (vm_compute; reflexivity).
  split; [exact H|].
  exact (cache_hit_means_created driver []
           [OpInsertTransactionPartitionedDynamicCached trxA] trxB H).
Defined.

(** Three cached inserts, two of them on the same day, and a fetch. *)
Lemma served_history_creates_each_day_once_witness :
  let l0 := NewLogic (drv := driver) [] in
  let trxC := mkTransaction "C" "1" "{}" "SUCCESS" t_2021_07_01 t_2021_07_01 in
  let ops := [OpInsertTransactionPartitionedDynamicCached trxA;
              OpInsertTransactionPartitionedDynamicCached trxB;
              OpFetchOneTransactionPartitioned "A" "1" t_2021_06_30;
              OpInsertTransactionPartitionedDynamicCached trxC] in
  childTableMap l0 = ∅ ∧ forallb servedOp ops = true
  ∧ ∃ ts : list Time,
      List.filter succeededExec (calls (run_ops ops l0))
        = List.filter succeededExec (calls l0)
            ++ ((λ t, CallExec (childTableSQL t) None) <$> ts)
      ∧ NoDup (utcDate <$> ts)
      ∧ size (childTableMap (run_ops ops l0)) = length ts.
Proof.
  intros l0 trxC ops.
  assert (H1 : childTableMap l0 = ∅) by reflexivity.
  assert (H2 : forallb servedOp ops = true) by reflexivity.
  split; [exact H1|]. split; [exact H2|].
  destruct (served_history_creates_each_day_once driver l0 ops H1 H2)
    as (ts & Hlog & Hnd & _ & Hsize).
  exists ts. split; [exact Hlog|]. split; [exact Hnd | exact Hsize].
Defined.


(** A timestamp of 2021 and one of the year before year 0. *)
Lemma ChildTableName_identifier_witness :
  string_forallb identChar (ChildTableName t_2021_06_30_end) = true
  ∧ String.length (ChildTableName t_2021_06_30_end) = 35%nat
  ∧ string_forallb identChar (ChildTableName (Date (-1) 6 30 0 0 0 0 UTC)) = false.
Proof.
  pose proof (ChildTableName_identifier t_2021_06_30_end) as H.
  change (utcDate t_2021_06_30_end) with (2021, 6, 30) in H.
  destruct H as [Hchars Hlen].
  split; [exact Hchars|]. split; [apply Hlen; lia|].
  pose proof (ChildTableName_identifier (Date (-1) 6 30 0 0 0 0 UTC)) as H'.
  change (utcDate (Date (-1) 6 30 0 0 0 0 UTC)) with (-1, 6, 30) in H'.
  exact (proj1 H').
Defined.

(** The day computed for the last second of 2021-06-30 is its first
    second. *)
Lemma currentDay_is_midnight_witness :
  let currentTime := Time_UTC t_2021_06_30_end in
  let currentDay :=
    Date (Time_Year currentTime) (Time_Month currentTime) (Time_Day currentTime)
         0 0 0 0 UTC in
  afterAbsoluteZero t_2021_06_30_end
  ∧ unixSec currentDay = unixDay t_2021_06_30_end * secondsPerDay
  ∧ utcClock currentDay = (0, 0, 0).
Proof.
  intros currentTime currentDay.
  assert (H : afterAbsoluteZero t_2021_06_30_end)
    by (vm_compute; split; [discriminate | reflexivity]).
  split; [exact H|].
  destruct (currentDay_is_midnight t_2021_06_30_end) as (_ & Hclock & _ & _ & _ & Hunix).
  split; [exact (Hunix H) | exact Hclock].
Defined.

(** The leap day of 2024 at noon. *)
Lemma Date_names_its_day_witness :
  absoluteZeroYear ≤ 2024 ≤ 100000000000
  ∧ validDate 2024 2 29 ∧ validClock 12 0 0 0
  ∧ utcDate (Date 2024 2 29 12 0 0 0 UTC) = (2024, 2, 29)
  ∧ ChildTableName (Date 2024 2 29 12 0 0 0 UTC)
    = "transaction_partition_y" +:+ appendInt EmptyString 2024 4
        +:+ "_m" +:+ appendInt EmptyString 2 2
        +:+ "_d" +:+ appendInt EmptyString 29 2.
Proof.
  assert (H1 : absoluteZeroYear ≤ 2024 ≤ 100000000000)
    by (vm_compute; split; discriminate).
  assert (H2 : validDate 2024 2 29)
    by (vm_compute; repeat split; discriminate).
  assert (H3 : validClock 12 0 0 0)
    by (vm_compute; repeat split; try discriminate; reflexivity).
  split; [exact H1|]. split; [exact H2|]. split; [exact H3|].
  destruct (Date_names_its_day 2024 2 29 12 0 0 0 H1 H2 H3) as (Hd & _ & _ & Hn).
  split; [exact Hd | exact Hn].
Defined.

(** Creating the child table directly does not mark it. *)
Lemma only_cached_insert_writes_cache_witness :
  let l := NewLogic (drv := driver) [] in
  let ops := [OpCreatePartitionParentTable;
              OpCreateNewPartitionChildTable t_2021_06_30;
              OpInsertTransactionPartitionedDynamic trxA] in
  forallb (λ o, negb (cachedOp o)) ops = true
  ∧ knownExisting (childTableMap l !! cacheKey (ChildTableName (TrxDate trxB))) = false
  ∧ childTableMap (run_ops ops l) = childTableMap l
  ∧ ∃ err rest,
      calls (snd (InsertTransactionPartitionedDynamicCached driver trxB (run_ops ops l)))
        = calls (run_ops ops l) ++ CallExec (childTableSQL (TrxDate trxB)) err :: rest.
Proof.
  intros l ops.
  assert (H1 : forallb (λ o, negb (cachedOp o)) ops = true) by reflexivity.
  assert (H2 : knownExisting
                 (childTableMap l !! cacheKey (ChildTableName (TrxDate trxB))) = false)
    by (vm_compute; reflexivity).
  split; [exact H1|]. split; [exact H2|].
  destruct (only_cached_insert_writes_cache driver ops l trxB H1) as [Hm Hexec].
  split; [exact Hm | exact (Hexec H2)].
Defined.

End MoreRuns.
